(** * auto-server-client: the request dispatcher, the proxy route and the hooks

    A shallow embedding of [createServerClient] (the authenticated request
    dispatcher), of the proxy route handler documented in the README, and of
    the two client hooks [useAutoQuery] and [useAutoMutation], followed by the
    properties of the specification that concern them.

    Asynchronous code is embedded as explicit state passing.  The dispatcher
    and the proxy route run against a network oracle and record the requests
    they issue; a hook instance is a record that is advanced by the events the
    host delivers to it (renders, unmount, settlement of a pending promise).

    What belongs to the host is kept apart from the code of the repository:
    [JSON.stringify] and [JSON.parse] are parameters ([Platform]);
    [Headers.set] normalizes the value it is given and refuses one that is
    not a header value ([Headers_set]); [fetch] observes the abort signal it
    is given ([fetch_outcome], [json_outcome]); the state of a component is
    replaced by [setState] while the component is mounted. *)

From Stdlib Require Import Ascii String.
From stdpp Require Import base strings gmap list pretty.

Set Warnings "-register-all".

Local Open Scope string_scope.
Local Open Scope nat_scope.

(** ** JavaScript values

    The values that travel as JSON bodies.  Numbers are integer valued:
    fractional numbers, [NaN] and the infinities are not represented. *)

Inductive value : Type :=
  | VUndefined
  | VNull
  | VBool (b : bool)
  | VNumber (n : Z)
  | VString (s : string)
  | VArray (items : list value)
  | VObject (fields : list (string * value)).

(** [ToBoolean]: what [if (v)] and [v ? a : b] test. *)
Definition truthy (v : value) : bool :=
  match v with
  | VUndefined | VNull => false
  | VBool b => b
  | VNumber n => negb (n =? 0)%Z
  | VString s => negb (String.eqb s "")
  | VArray _ | VObject _ => true
  end.

(** Property read [v.k], as object destructuring performs it: [undefined] when
    the property is missing, and for the properties read here also on
    primitives and arrays. *)
Fixpoint lookup_field (k : string) (fields : list (string * value)) : value :=
  match fields with
  | [] => VUndefined
  | (k', v) :: rest => if String.eqb k k' then v else lookup_field k rest
  end.

Definition get_prop (v : value) (k : string) : value :=
  match v with
  | VObject fields => lookup_field k fields
  | _ => VUndefined
  end.

(** [s.startsWith(searchString)] *)
Fixpoint startsWith (s searchString : string) {struct searchString} : bool :=
  match searchString, s with
  | EmptyString, _ => true
  | String a searchString', String b s' =>
      Ascii.eqb a b && startsWith s' searchString'
  | String _ _, EmptyString => false
  end.

(** Thrown values: every exception met here is an object with a [name] and a
    [message]. *)
Record js_error : Type := { err_name : string; err_message : string }.

Definition Error (message : string) : js_error :=
  {| err_name := "Error"; err_message := message |}.

(** The [DOMException] an aborted [fetch] rejects with. *)
Definition AbortError : js_error :=
  {| err_name := "AbortError"; err_message := "The operation was aborted." |}.

(** What [JSON.parse] and [Response.json] throw on malformed input. *)
Definition SyntaxError : js_error :=
  {| err_name := "SyntaxError"; err_message := "Unexpected token in JSON" |}.

(** The outcome of a promise once it has settled. *)
Inductive settled (A : Type) : Type :=
  | Resolved (a : A)
  | Rejected (e : js_error).
Arguments Resolved {A} a.
Arguments Rejected {A} e.

(** ** The platform

    [JSON.stringify] and [JSON.parse] belong to the host, not to the
    repository: they are parameters of the development.  [JSON.stringify]
    answers [undefined] ([None]) for a value that has no JSON text. *)
Class Platform : Type := {
  JSON_stringify : value → option string;
  JSON_parse : string → option value;
}.

(** *** fetch *)

Record Request : Type := {
  req_url : string;
  req_method : string;
  req_headers : gmap string string;
  req_body : option string;
}.

(** *** Headers

    Strings are sequences of characters in the range U+0000 to U+00FF, one
    [ascii] each: the conversion of a header value to a byte string, which
    refuses any character above U+00FF, has nothing to refuse here.

    HTTP white space: tab, line feed, carriage return and space. *)
Definition is_http_whitespace (c : ascii) : bool :=
  let n := nat_of_ascii c in
  (n =? 9) || (n =? 10) || (n =? 13) || (n =? 32).

Fixpoint trim_start (s : string) : string :=
  match s with
  | EmptyString => EmptyString
  | String c rest => if is_http_whitespace c then trim_start rest else s
  end.

Fixpoint trim_end (s : string) : string :=
  match s with
  | EmptyString => EmptyString
  | String c rest =>
      match trim_end rest with
      | EmptyString =>
          if is_http_whitespace c then EmptyString else String c EmptyString
      | String _ _ as kept => String c kept
      end
  end.

(** A header value is normalized before it is stored: leading and trailing
    HTTP white space is removed. *)
Definition normalize_header_value (s : string) : string :=
  trim_end (trim_start s).

(** A normalized value is a header value when it holds no NUL, no line feed
    and no carriage return. *)
Fixpoint is_header_value (s : string) : bool :=
  match s with
  | EmptyString => true
  | String c rest =>
      let n := nat_of_ascii c in
      negb ((n =? 0) || (n =? 10) || (n =? 13)) && is_header_value rest
  end.

(** What [Headers.set] throws when it is given a value that is not a header
    value. *)
Definition TypeError : js_error :=
  {| err_name := "TypeError"; err_message := "Invalid header value." |}.

(** [headers.set(name, value)], for the two names used here, which are valid
    header names: the normalized value replaces the entry of [name], or the
    call throws and nothing is stored. *)
Definition Headers_set (name value : string) (headers : gmap string string)
    : settled (gmap string string) :=
  let value := normalize_header_value value in
  if is_header_value value
  then Resolved (<[name := value]> headers)
  else Rejected TypeError.

(** Synchronous code that may throw: [Rejected e] stands for [throw e]. *)
#[export] Instance settled_ret : MRet settled := λ A a, Resolved a.

#[export] Instance settled_bind : MBind settled :=
  λ A B k m,
    match m with
    | Resolved a => k a
    | Rejected e => Rejected e
    end.

(** What reading the body of a response to its end gives. *)
Inductive body_read : Type :=
  | ReadText (text : string)
  | ReadFailed (e : js_error).

Record Response : Type := {
  res_status : N;
  res_body : body_read;
}.

(** [response.ok]: the status is in the range 200-299. *)
Definition ok (response : Response) : bool :=
  (200 <=? res_status response)%N && (res_status response <=? 299)%N.

(** [response.json()]: read the body and parse it. *)
Definition json `{Platform} (response : Response) : settled value :=
  match res_body response with
  | ReadText text =>
      match JSON_parse text with
      | Some v => Resolved v
      | None => Rejected SyntaxError
      end
  | ReadFailed e => Rejected e
  end.

(** ** Asynchronous computations of the trusted side

    The network answers every request with a settled promise.  A computation
    reads the network and appends the requests it issues to a trace. *)
Definition Net : Type := Request → settled Response.

Definition Async (A : Type) : Type :=
  Net → list Request → settled A * list Request.

#[export] Instance Async_ret : MRet Async :=
  λ A a _ trace, (Resolved a, trace).

#[export] Instance Async_bind : MBind Async :=
  λ A B k m net trace,
    match m net trace with
    | (Resolved a, trace') => k a net trace'
    | (Rejected e, trace') => (Rejected e, trace')
    end.

Definition throw {A} (e : js_error) : Async A :=
  λ _ trace, (Rejected e, trace).

(** [await p] for a promise whose outcome is known. *)
Definition await {A} (p : settled A) : Async A :=
  λ _ trace, (p, trace).

(** [try { m } catch { handler }] *)
Definition try_catch {A} (m : Async A) (handler : js_error → Async A)
    : Async A :=
  λ net trace,
    match m net trace with
    | (Resolved a, trace') => (Resolved a, trace')
    | (Rejected e, trace') => handler e net trace'
    end.

Definition fetch (request : Request) : Async Response :=
  λ net trace, (net request, (trace ++ [request])%list).

(** Run a computation from an empty trace. *)
Definition run_async {A} (m : Async A) (net : Net) : settled A * list Request :=
  m net [].

(** ** createServerClient *)

Module ServerClient.

(** What a call of [getToken] comes to: a string or [undefined] at once, a
    promise of one, or an exception thrown by the provider. *)
Inductive token : Type :=
  | TokenNow (t : option string)
  | TokenPromise (eventual : option string)
  | TokenThrow (e : js_error).

(** [if (token)]: a promise is an object, hence truthy.  Nothing is tested
    when the provider throws. *)
Definition token_truthy (t : token) : bool :=
  match t with
  | TokenNow None => false
  | TokenNow (Some s) => negb (String.eqb s "")
  | TokenPromise _ => true
  | TokenThrow _ => false
  end.

(** [`${token}`], for a token that the provider returned. *)
Definition token_to_string (t : token) : string :=
  match t with
  | TokenNow None => "undefined"
  | TokenNow (Some s) => s
  | TokenPromise _ => "[object Promise]"
  | TokenThrow _ => "undefined"
  end.

Record ServerClientConfig : Type := {
  baseURL : string;
  getToken : option (unit → token);
}.

Record ServerClient : Type := {
  get : string → Async value;
  post : string → value → Async value;
  put : string → value → Async value;
  delete : string → Async value;
}.

Section Client.
Context `{Platform}.

(** The part of [request] that comes before [fetch]: the request that is
    handed to [fetch], or the exception that ends the call before anything is
    sent ([getToken] throws, or [Headers.set] refuses the value). *)
Definition build_request (config : ServerClientConfig)
    (method path : string) (body : value) : settled Request :=
  let url := baseURL config +:+ path in
  let headers : gmap string string := ∅ in
  headers ←
    match getToken config with
    | Some getToken =>
        match getToken () with
        | TokenThrow e => Rejected e
        | token =>
            if token_truthy token
            then Headers_set "Authorization"
                   ("Bearer " +:+ token_to_string token) headers
            else Resolved headers
        end
    | None => Resolved headers
    end;
  headers ←
    (if truthy body
     then Headers_set "Content-Type" "application/json" headers
     else Resolved headers);
  Resolved
    {| req_url := url;
       req_method := method;
       req_headers := headers;
       req_body := if truthy body then JSON_stringify body else None |}.

Definition request (config : ServerClientConfig)
    (method path : string) (body : value) : Async value :=
  init ← await (build_request config method path body);
  response ← fetch init;
  if negb (ok response)
  then throw (Error ("Request failed: " +:+ pretty (res_status response)))
  else await (json response).

Definition createServerClient (config : ServerClientConfig) : ServerClient :=
  {| get := λ path, request config "GET" path VUndefined;
     post := λ path body, request config "POST" path body;
     put := λ path body, request config "PUT" path body;
     delete := λ path, request config "DELETE" path VUndefined |}.

End Client.

End ServerClient.

(** ** The proxy route (README, [app/api/proxy/route.ts]) *)

(** The trusted context that the route and [serverQuery] read:
    [process.env.API_URL] and the value of the [accessToken] cookie, if there
    is one. *)
Record Env : Type := {
  API_URL : string;
  accessToken : option string;
}.

Module Proxy.

(** [NextResponse.json(data, { status })] *)
Record NextResponse : Type := {
  status : N;
  body : value;
}.

Definition NextResponse_json (data : value) (status : N) : NextResponse :=
  {| status := status; body := data |}.

Definition ALLOWED_METHODS : list string := ["GET"; "POST"; "PUT"; "DELETE"].

(** [list.includes(v)] for a list of strings: only a string can be found. *)
Definition includes (l : list string) (v : value) : bool :=
  match v with
  | VString s => existsb (String.eqb s) l
  | _ => false
  end.

(** [payload ?? {}] *)
Definition nullish_default (payload : value) : value :=
  match payload with
  | VUndefined | VNull => VObject []
  | _ => payload
  end.

Section Handler.
Context `{Platform}.

(** The part of the handler behind the two validations. *)
Definition forward (env : Env) (method : value) (path : string) (body : value)
    : Async NextResponse :=
  let serverClient :=
    ServerClient.createServerClient
      {| ServerClient.baseURL := API_URL env;
         ServerClient.getToken :=
           Some (λ _, ServerClient.TokenPromise (accessToken env)) |} in
  try_catch
    (data ←
       match method with
       | VString "GET" => ServerClient.get serverClient path
       | VString "POST" => ServerClient.post serverClient path body
       | VString "PUT" => ServerClient.put serverClient path body
       | VString "DELETE" => ServerClient.delete serverClient path
       | _ => mret VUndefined
       end;
     mret (NextResponse_json data 200))
    (λ _, mret (NextResponse_json
                  (VObject [("error", VString "Request failed")]) 500)).

(** [req_json] is the outcome of [await req.json()]. *)
Definition POST (env : Env) (req_json : settled value) : Async NextResponse :=
  match req_json with
  | Rejected _ =>
      mret (NextResponse_json
              (VObject [("error", VString "Invalid JSON body")]) 400)
  | Resolved payload =>
      let payload := nullish_default payload in
      let method := get_prop payload "method" in
      let path := get_prop payload "path" in
      let body := get_prop payload "body" in
      if negb (includes ALLOWED_METHODS method)
      then mret (NextResponse_json
                   (VObject [("error", VString "Invalid method")]) 400)
      else
        match path with
        | VString p =>
            if negb (startsWith p "/")
            then mret (NextResponse_json
                         (VObject [("error", VString "Invalid path")]) 400)
            else forward env method p body
        | _ =>
            mret (NextResponse_json
                    (VObject [("error", VString "Invalid path")]) 400)
        end
  end.

End Handler.

End Proxy.

(** ** The hooks

    A pending [fetch] observes the [signal] it was given: once the controller
    has been aborted the promise rejects with an [AbortError], whatever the
    network would have answered, and so does the reading of the body of a
    response already received. *)

Definition fetch_outcome (aborted : bool) (answer : settled Response)
    : settled Response :=
  if aborted then Rejected AbortError else answer.

Definition json_outcome `{Platform} (aborted : bool) (res : Response)
    : settled value :=
  if aborted then Rejected AbortError else json res.

(** Where the asynchronous body of a hook is suspended. *)
Inductive suspended : Type :=
  | AwaitFetch
  | AwaitJson (res : Response).

(** [err.name === "AbortError"] *)
Definition is_abort (err : js_error) : bool :=
  String.eqb (err_name err) "AbortError".

(** *** useAutoQuery *)

Module AutoQuery.

Record QueryState : Type := {
  data : option value;
  error : option string;
  loading : bool;
}.

(** One mounted use of the hook.  Controllers are numbered in the order of
    their creation; a suspended asynchronous body is filed under the
    controller it closed over. *)
Record instance : Type := {
  state : QueryState;               (* the [useState] cell *)
  mounted : bool;
  deps : string;                    (* the [path] the effect last ran with *)
  cleanup : option nat;             (* controller held by the pending cleanup *)
  aborted : gset nat;               (* controllers whose [abort] was called *)
  tasks : gmap nat suspended;       (* asynchronous bodies not yet finished *)
  fresh : nat;                      (* next controller *)
  sent : list (nat * Request);      (* [fetch] calls, with their signal *)
  updates : list (nat * QueryState) (* [setState] calls, with their caller *)
}.

(** What the host delivers: a render with the current [path], the removal of
    the component, the answer of the network to the [fetch] made under
    controller [c], the end of the reading of the body of its response. *)
Inductive event : Type :=
  | Render (path : string)
  | Unmount
  | FetchSettled (c : nat) (answer : settled Response)
  | BodyRead (c : nat).

Section Hook.
Context `{Platform}.

Definition proxy_request (path : string) : Request :=
  {| req_url := "/api/proxy";
     req_method := "POST";
     req_headers := {["Content-Type" := "application/json"]};
     req_body :=
       JSON_stringify
         (VObject [("method", VString "GET"); ("path", VString path)]) |}.

(** [setState(s)], called from the body filed under [c].  An unmounted
    component has no state left to replace; the call is recorded all the
    same. *)
Definition setState (c : nat) (s : QueryState) (h : instance) : instance :=
  {| state := if mounted h then s else state h;
     mounted := mounted h;
     deps := deps h;
     cleanup := cleanup h;
     aborted := aborted h;
     tasks := tasks h;
     fresh := fresh h;
     sent := sent h;
     updates := updates h ++ [(c, s)] |}.

Definition set_task (c : nat) (t : option suspended) (h : instance)
    : instance :=
  {| state := state h;
     mounted := mounted h;
     deps := deps h;
     cleanup := cleanup h;
     aborted := aborted h;
     tasks := match t with
              | Some t => <[c := t]> (tasks h)
              | None => base.delete c (tasks h)
              end;
     fresh := fresh h;
     sent := sent h;
     updates := updates h |}.

(** The effect: a new controller, the asynchronous body started and
    suspended on its [fetch], the cleanup returned. *)
Definition run_effect (path : string) (h : instance) : instance :=
  let controller := fresh h in
  {| state := state h;
     mounted := mounted h;
     deps := path;
     cleanup := Some controller;
     aborted := aborted h;
     tasks := <[controller := AwaitFetch]> (tasks h);
     fresh := S controller;
     sent := sent h ++ [(controller, proxy_request path)];
     updates := updates h |}.

(** The cleanup: [controller.abort()]. *)
Definition run_cleanup (h : instance) : instance :=
  {| state := state h;
     mounted := mounted h;
     deps := deps h;
     cleanup := None;
     aborted := match cleanup h with
                | Some controller => {[controller]} ∪ aborted h
                | None => aborted h
                end;
     tasks := tasks h;
     fresh := fresh h;
     sent := sent h;
     updates := updates h |}.

(** First render and the effect that follows it. *)
Definition useAutoQuery (path : string) : instance :=
  run_effect path
    {| state := {| data := None; error := None; loading := true |};
       mounted := true;
       deps := path;
       cleanup := None;
       aborted := ∅;
       tasks := ∅;
       fresh := 0;
       sent := [];
       updates := [] |}.

(** The [catch] block of the asynchronous body. *)
Definition catch (c : nat) (err : js_error) (h : instance) : instance :=
  if is_abort err then h
  else setState c {| data := None; error := Some "Request failed";
                     loading := false |} h.

Definition unmount (h : instance) : instance :=
  let h := run_cleanup h in
  {| state := state h;
     mounted := false;
     deps := deps h;
     cleanup := cleanup h;
     aborted := aborted h;
     tasks := tasks h;
     fresh := fresh h;
     sent := sent h;
     updates := updates h |}.

Definition step (ev : event) (h : instance) : instance :=
  match ev with
  | Render path =>
      if mounted h
      then if String.eqb path (deps h) then h
           else run_effect path (run_cleanup h)
      else h
  | Unmount => if mounted h then unmount h else h
  | FetchSettled c answer =>
      match tasks h !! c with
      | Some AwaitFetch =>
          match fetch_outcome (bool_decide (c ∈ aborted h)) answer with
          | Resolved res => set_task c (Some (AwaitJson res)) h
          | Rejected err => catch c err (set_task c None h)
          end
      | _ => h
      end
  | BodyRead c =>
      match tasks h !! c with
      | Some (AwaitJson res) =>
          match json_outcome (bool_decide (c ∈ aborted h)) res with
          | Resolved data =>
              setState c {| data := Some data; error := None;
                            loading := false |} (set_task c None h)
          | Rejected err => catch c err (set_task c None h)
          end
      | _ => h
      end
  end.

Definition run (evs : list event) (h : instance) : instance :=
  foldl (λ h ev, step ev h) h evs.

End Hook.

End AutoQuery.

(** *** useAutoMutation *)

Module AutoMutation.

(** The [method] parameter of the hook. *)
Inductive verb : Type := POST | PUT | DELETE.

Definition verb_name (m : verb) : string :=
  match m with
  | POST => "POST"
  | PUT => "PUT"
  | DELETE => "DELETE"
  end.

Record MutationState : Type := {
  data : option value;
  error : option string;
  loading : bool;
}.

(** One mounted use of the hook.  Every call of [mutate] creates a controller;
    its asynchronous body and the promise it returned are filed under that
    controller.  A promise is absent from [promises] while it is pending. *)
Record instance : Type := {
  state : MutationState;
  mounted : bool;
  aborted : gset nat;
  tasks : gmap nat suspended;
  fresh : nat;
  sent : list (nat * Request);
  updates : list (nat * MutationState);
  promises : gmap nat (settled value);
}.

(** What the host delivers: a call of [mutate], the removal of the
    component, the answer of the network to the [fetch] made under controller
    [c], the end of the reading of the body of its response. *)
Inductive event : Type :=
  | Mutate (body : value)
  | Unmount
  | FetchSettled (c : nat) (answer : settled Response)
  | BodyRead (c : nat).

Section Hook.
Context `{Platform}.
Variable path : string.
Variable method : verb.

Definition proxy_request (body : value) : Request :=
  {| req_url := "/api/proxy";
     req_method := "POST";
     req_headers := {["Content-Type" := "application/json"]};
     req_body :=
       JSON_stringify
         (VObject [("method", VString (verb_name method));
                   ("path", VString path);
                   ("body", body)]) |}.

Definition setState (c : nat) (s : MutationState) (h : instance) : instance :=
  {| state := if mounted h then s else state h;
     mounted := mounted h;
     aborted := aborted h;
     tasks := tasks h;
     fresh := fresh h;
     sent := sent h;
     updates := updates h ++ [(c, s)];
     promises := promises h |}.

Definition set_task (c : nat) (t : option suspended) (h : instance)
    : instance :=
  {| state := state h;
     mounted := mounted h;
     aborted := aborted h;
     tasks := match t with
              | Some t => <[c := t]> (tasks h)
              | None => base.delete c (tasks h)
              end;
     fresh := fresh h;
     sent := sent h;
     updates := updates h;
     promises := promises h |}.

(** The promise returned by the call filed under [c] settles. *)
Definition settle (c : nat) (p : settled value) (h : instance) : instance :=
  {| state := state h;
     mounted := mounted h;
     aborted := aborted h;
     tasks := tasks h;
     fresh := fresh h;
     sent := sent h;
     updates := updates h;
     promises := <[c := p]> (promises h) |}.

(** First render. *)
Definition useAutoMutation : instance :=
  {| state := {| data := None; error := None; loading := false |};
     mounted := true;
     aborted := ∅;
     tasks := ∅;
     fresh := 0;
     sent := [];
     updates := [];
     promises := ∅ |}.

(** [mutate(body)] up to its first suspension. *)
Definition mutate (body : value) (h : instance) : instance :=
  let controller := fresh h in
  let h := setState controller
             {| data := None; error := None; loading := true |} h in
  {| state := state h;
     mounted := mounted h;
     aborted := aborted h;
     tasks := <[controller := AwaitFetch]> (tasks h);
     fresh := S controller;
     sent := sent h ++ [(controller, proxy_request body)];
     updates := updates h;
     promises := promises h |}.

(** The [catch] block of [mutate]. *)
Definition catch (c : nat) (err : js_error) (h : instance) : instance :=
  if is_abort err then settle c (Resolved VUndefined) h
  else settle c (Rejected err)
         (setState c {| data := None; error := Some "Request failed";
                        loading := false |} h).

(** The component is removed.  The hook registers nothing to run then. *)
Definition unmount (h : instance) : instance :=
  {| state := state h;
     mounted := false;
     aborted := aborted h;
     tasks := tasks h;
     fresh := fresh h;
     sent := sent h;
     updates := updates h;
     promises := promises h |}.

Definition step (ev : event) (h : instance) : instance :=
  match ev with
  | Mutate body => mutate body h
  | Unmount => unmount h
  | FetchSettled c answer =>
      match tasks h !! c with
      | Some AwaitFetch =>
          match fetch_outcome (bool_decide (c ∈ aborted h)) answer with
          | Resolved res => set_task c (Some (AwaitJson res)) h
          | Rejected err => catch c err (set_task c None h)
          end
      | _ => h
      end
  | BodyRead c =>
      match tasks h !! c with
      | Some (AwaitJson res) =>
          match json_outcome (bool_decide (c ∈ aborted h)) res with
          | Resolved data =>
              settle c (Resolved data)
                (setState c {| data := Some data; error := None;
                               loading := false |} (set_task c None h))
          | Rejected err => catch c err (set_task c None h)
          end
      | _ => h
      end
  end.

Definition run (evs : list event) (h : instance) : instance :=
  foldl (λ h ev, step ev h) h evs.

End Hook.

End AutoMutation.

(** ** A reference platform

    An executable instance of [Platform], on which the definitions above can
    be run: the JSON text of a value as [JSON.stringify] writes it (no
    white space, properties of value [undefined] left out, [undefined] array
    items written [null]) and a recursive-descent reader for it.  In string
    literals only the quote and the backslash are escaped. *)

Module Reference.

Definition quote_char : ascii := "034"%char.
Definition backslash : ascii := "\"%char.

Fixpoint escape (s : string) : string :=
  match s with
  | EmptyString => EmptyString
  | String c rest =>
      if (Ascii.eqb c quote_char || Ascii.eqb c backslash)%bool
      then String backslash (String c (escape rest))
      else String c (escape rest)
  end.

Definition quote (s : string) : string :=
  String quote_char (escape s) +:+ String quote_char "".

Definition join (sep : string) (l : list string) : string :=
  match l with
  | [] => ""
  | x :: rest => foldl (λ acc y, acc +:+ sep +:+ y) x rest
  end.

Fixpoint write (v : value) : string :=
  match v with
  | VUndefined | VNull => "null"
  | VBool true => "true"
  | VBool false => "false"
  | VNumber n => pretty n
  | VString s => quote s
  | VArray items => "[" +:+ join "," (map write items) +:+ "]"
  | VObject fields =>
      "{" +:+
      join ","
        (concat
           (map (λ '(k, w),
                   match w with
                   | VUndefined => []
                   | _ => [quote k +:+ ":" +:+ write w]
                   end) fields)) +:+
      "}"
  end.

Definition stringify (v : value) : option string :=
  match v with
  | VUndefined => None
  | _ => Some (write v)
  end.

Definition is_space (c : ascii) : bool :=
  let n := nat_of_ascii c in
  ((n =? 32) || (n =? 10) || (n =? 13) || (n =? 9))%nat.

Fixpoint skip_space (s : string) : string :=
  match s with
  | String c rest => if is_space c then skip_space rest else s
  | EmptyString => s
  end.

Definition digit (c : ascii) : option Z :=
  let n := nat_of_ascii c in
  if ((48 <=? n) && (n <=? 57))%nat then Some (Z.of_nat (n - 48)) else None.

Fixpoint read_digits (acc : Z) (s : string) : Z * string :=
  match s with
  | String c rest =>
      match digit c with
      | Some d => read_digits (10 * acc + d) rest
      | None => (acc, s)
      end
  | EmptyString => (acc, s)
  end.

Definition starts_digit (s : string) : bool :=
  match s with
  | String c _ => bool_decide (is_Some (digit c))
  | EmptyString => false
  end.

Definition read_number (s : string) : option (value * string) :=
  match s with
  | String "-" rest =>
      if starts_digit rest
      then let '(n, r) := read_digits 0 rest in Some (VNumber (- n), r)
      else None
  | _ =>
      if starts_digit s
      then let '(n, r) := read_digits 0 s in Some (VNumber n, r)
      else None
  end.

(** The characters of a string literal, after its opening quote. *)
Fixpoint read_chars (s : string) : option (string * string) :=
  match s with
  | EmptyString => None
  | String c rest =>
      if Ascii.eqb c quote_char then Some (EmptyString, rest)
      else if Ascii.eqb c backslash then
        match rest with
        | String e rest' =>
            if (Ascii.eqb e quote_char || Ascii.eqb e backslash)%bool
            then match read_chars rest' with
                 | Some (t, r) => Some (String e t, r)
                 | None => None
                 end
            else None
        | EmptyString => None
        end
      else match read_chars rest with
           | Some (t, r) => Some (String c t, r)
           | None => None
           end
  end.

Fixpoint strip_prefix (p s : string) : option string :=
  match p, s with
  | EmptyString, _ => Some s
  | String a p', String b s' =>
      if Ascii.eqb a b then strip_prefix p' s' else None
  | String _ _, EmptyString => None
  end.

(** A property read a second time replaces the value read first and keeps
    its place. *)
Definition add_member (k : string) (v : value) (rest : list (string * value))
    : list (string * value) :=
  if existsb (λ kv, String.eqb k kv.1) rest
  then (k, lookup_field k rest) :: filter (λ kv, kv.1 ≠ k) rest
  else (k, v) :: rest.

Fixpoint read_value (fuel : nat) (s : string) : option (value * string) :=
  match fuel with
  | 0 => None
  | S fuel =>
      match skip_space s with
      | String "n" _ =>
          r ← strip_prefix "null" (skip_space s); Some (VNull, r)
      | String "t" _ =>
          r ← strip_prefix "true" (skip_space s); Some (VBool true, r)
      | String "f" _ =>
          r ← strip_prefix "false" (skip_space s); Some (VBool false, r)
      | String "[" rest =>
          match skip_space rest with
          | String "]" r => Some (VArray [], r)
          | _ => '(items, r) ← read_items fuel rest; Some (VArray items, r)
          end
      | String "{" rest =>
          match skip_space rest with
          | String "}" r => Some (VObject [], r)
          | _ => '(fields, r) ← read_members fuel rest; Some (VObject fields, r)
          end
      | String c rest =>
          if Ascii.eqb c quote_char
          then '(t, r) ← read_chars rest; Some (VString t, r)
          else read_number (skip_space s)
      | EmptyString => None
      end
  end
with read_items (fuel : nat) (s : string) : option (list value * string) :=
  match fuel with
  | 0 => None
  | S fuel =>
      '(v, r) ← read_value fuel s;
      match skip_space r with
      | String "," r' => '(vs, r'') ← read_items fuel r'; Some (v :: vs, r'')
      | String "]" r' => Some ([v], r')
      | _ => None
      end
  end
with read_members (fuel : nat) (s : string)
    : option (list (string * value) * string) :=
  match fuel with
  | 0 => None
  | S fuel =>
      match skip_space s with
      | String c r =>
          if Ascii.eqb c quote_char then
            '(k, r) ← read_chars r;
            match skip_space r with
            | String ":" r =>
                '(v, r) ← read_value fuel r;
                match skip_space r with
                | String "," r' =>
                    '(kvs, r'') ← read_members fuel r';
                    Some (add_member k v kvs, r'')
                | String "}" r' => Some ([(k, v)], r')
                | _ => None
                end
            | _ => None
            end
          else None
      | EmptyString => None
      end
  end.

Definition parse (s : string) : option value :=
  '(v, r) ← read_value (2 * String.length s + 2) s;
  match skip_space r with
  | EmptyString => Some v
  | _ => None
  end.

#[export] Instance platform : Platform :=
  {| JSON_stringify := stringify; JSON_parse := parse |}.

End Reference.

(** ** Calls of a client, and the server-side helper *)

(** One call of a method of a [ServerClient]. *)
Inductive call : Type :=
  | CallGet (path : string)
  | CallPost (path : string) (body : value)
  | CallPut (path : string) (body : value)
  | CallDelete (path : string).

Definition dispatch (client : ServerClient.ServerClient) (c : call)
    : Async value :=
  match c with
  | CallGet path => ServerClient.get client path
  | CallPost path body => ServerClient.post client path body
  | CallPut path body => ServerClient.put client path body
  | CallDelete path => ServerClient.delete client path
  end.

Definition call_method (c : call) : string :=
  match c with
  | CallGet _ => "GET"
  | CallPost _ _ => "POST"
  | CallPut _ _ => "PUT"
  | CallDelete _ => "DELETE"
  end.

Definition call_path (c : call) : string :=
  match c with
  | CallGet path | CallPost path _ | CallPut path _ | CallDelete path => path
  end.

(** The body that reaches [request]: [get] and [delete] pass none. *)
Definition call_body (c : call) : value :=
  match c with
  | CallPost _ body | CallPut _ body => body
  | CallGet _ | CallDelete _ => VUndefined
  end.

(** [serverQuery] ([src/server/serverQuery.ts]): a client whose [getToken] is
    an [async] function reading the [accessToken] cookie. *)
Definition serverQuery `{Platform} (env : Env) (path : string)
    : Async value :=
  let client :=
    ServerClient.createServerClient
      {| ServerClient.baseURL := API_URL env;
         ServerClient.getToken :=
           Some (λ _, ServerClient.TokenPromise (accessToken env)) |} in
  ServerClient.get client path.

(** ** Vocabulary of the properties *)

(** The request carries [body] as JSON: the content type is announced and
    the payload is the JSON text of [body], from which [body] is read back. *)
Definition carries_json_body `{Platform} (sent : Request) (body : value)
    : Prop :=
  req_headers sent !! "Content-Type" = Some "application/json"
  ∧ ∃ payload, req_body sent = Some payload
      ∧ JSON_stringify body = Some payload
      ∧ JSON_parse payload = Some body.

(** The two conditions the proxy route puts on its input. *)
Definition allowed_method (method : value) : Prop :=
  ∃ m, method = VString m ∧ m ∈ ["GET"; "POST"; "PUT"; "DELETE"].

Definition rooted_path (path : value) : Prop :=
  ∃ rest, path = VString (String "/" rest).

(** A run of the route that refuses its input: nothing was sent upstream and
    the answer is a 4xx response with an [error] message. *)
Definition refused (result : settled Proxy.NextResponse * list Request)
    : Prop :=
  result.2 = []
  ∧ ∃ response message,
      result.1 = Resolved response
      ∧ (400 ≤ Proxy.status response < 500)%N
      ∧ Proxy.body response = VObject [("error", VString message)].

(** A run of the route that dispatched: one request went upstream, for the
    given method and path. *)
Definition dispatched (env : Env)
    (result : settled Proxy.NextResponse * list Request) (m p : string)
    : Prop :=
  ∃ sent, result.2 = [sent]
    ∧ req_method sent = m
    ∧ req_url sent = API_URL env +:+ p.

(** The exception that reaches the [catch] block of the query hook when an
    event is delivered, if one does: the rejection of the awaited [fetch] or
    of the awaited [res.json()]. *)
Definition query_thrown `{Platform}
    (ev : AutoQuery.event) (h : AutoQuery.instance) : option js_error :=
  match ev with
  | AutoQuery.FetchSettled c answer =>
      match AutoQuery.tasks h !! c with
      | Some AwaitFetch =>
          match fetch_outcome (bool_decide (c ∈ AutoQuery.aborted h)) answer
          with
          | Rejected err => Some err
          | Resolved _ => None
          end
      | _ => None
      end
  | AutoQuery.BodyRead c =>
      match AutoQuery.tasks h !! c with
      | Some (AwaitJson res) =>
          match json_outcome (bool_decide (c ∈ AutoQuery.aborted h)) res with
          | Rejected err => Some err
          | Resolved _ => None
          end
      | _ => None
      end
  | _ => None
  end.

(** What holds of every instance of the query hook that renders and events
    can produce: the only request that may still be live is the one of the
    latest activation; every other pending one has been aborted. *)
Record query_inv (h : AutoQuery.instance) : Prop := {
  inv_tasks_known :
    ∀ c, is_Some (AutoQuery.tasks h !! c) → c < AutoQuery.fresh h;
  inv_superseded_aborted :
    ∀ c, is_Some (AutoQuery.tasks h !! c) → AutoQuery.cleanup h ≠ Some c →
         c ∈ AutoQuery.aborted h;
  inv_cleanup_known :
    ∀ c, AutoQuery.cleanup h = Some c → c < AutoQuery.fresh h;
  inv_updates_done :
    ∀ c s, (c, s) ∈ AutoQuery.updates h →
           AutoQuery.tasks h !! c = None ∧ c < AutoQuery.fresh h;
  inv_unmounted :
    AutoQuery.mounted h = false → AutoQuery.cleanup h = None;
}.

(** The same for the mutation hook, with the call whose body throws. *)
Definition mutation_thrown `{Platform}
    (ev : AutoMutation.event) (h : AutoMutation.instance)
    : option (nat * js_error) :=
  match ev with
  | AutoMutation.FetchSettled c answer =>
      match AutoMutation.tasks h !! c with
      | Some AwaitFetch =>
          match
            fetch_outcome (bool_decide (c ∈ AutoMutation.aborted h)) answer
          with
          | Rejected err => Some (c, err)
          | Resolved _ => None
          end
      | _ => None
      end
  | AutoMutation.BodyRead c =>
      match AutoMutation.tasks h !! c with
      | Some (AwaitJson res) =>
          match json_outcome (bool_decide (c ∈ AutoMutation.aborted h)) res with
          | Rejected err => Some (c, err)
          | Resolved _ => None
          end
      | _ => None
      end
  | _ => None
  end.

(** The outcome of a call of [mutate] whose request is answered by [answer]:
    what its [await fetch] and [await res.json()] come to. *)
Definition call_result `{Platform} (answer : settled Response)
    : settled value :=
  match answer with
  | Resolved res => json res
  | Rejected e => Rejected e
  end.

(** The state in which a finished call of [mutate] leaves the hook. *)
Definition reflected (outcome : settled value) : AutoMutation.MutationState :=
  match outcome with
  | Resolved v =>
      {| AutoMutation.data := Some v; AutoMutation.error := None;
         AutoMutation.loading := false |}
  | Rejected _ =>
      {| AutoMutation.data := None; AutoMutation.error := Some "Request failed";
         AutoMutation.loading := false |}
  end.

(** The events by which the request of the call filed under [c] completes. *)
Definition completes (c : nat) (answer : settled Response)
    : list AutoMutation.event :=
  [AutoMutation.FetchSettled c answer; AutoMutation.BodyRead c].



(** ** Concrete scenarios, run on the reference platform *)

Module Scenario.

Definition env : Env :=
  {| API_URL := "https://api.example.com";
     accessToken := Some "s3cret" |}.

Definition config : ServerClient.ServerClientConfig :=
  {| ServerClient.baseURL := "https://api.example.com";
     ServerClient.getToken :=
       Some (λ _, ServerClient.TokenNow (Some "s3cret")) |}.

Definition todo : value :=
  VObject [("id", VNumber 7); ("title", VString "New Todo");
           ("completed", VBool false)].

Definition respond (status : N) (v : value) : settled Response :=
  Resolved {| res_status := status; res_body := ReadText (Reference.write v) |}.

Definition other_todo : value :=
  VObject [("id", VNumber 8); ("title", VString "Older Todo");
           ("completed", VBool true)].

(** The body with which the proxy route answers a failed dispatch. *)
Definition proxy_failure : value :=
  VObject [("error", VString "Request failed")].

(** The rejection of a [fetch] that could not reach the server. *)
Definition network_error : js_error :=
  {| err_name := "TypeError"; err_message := "Failed to fetch" |}.

(** An upstream API: [/missing] is not found, anything else is the todo. *)
Definition upstream : Net :=
  λ request,
    if String.eqb (req_url request) "https://api.example.com/missing"
    then respond 404 (VObject [("message", VString "Not Found")])
    else respond 200 todo.

End Scenario.

(** ** Vocabulary of the further properties *)

(** The header names that [request] ever sets. *)
Definition request_header_names : list string :=
  ["Authorization"; "Content-Type"].

(** The answer of the route to a dispatch that failed. *)
Definition request_failed_response : Proxy.NextResponse :=
  Proxy.NextResponse_json (VObject [("error", VString "Request failed")]) 500.

(** The configuration with which the route and [serverQuery] create their
    client. *)
Definition trusted_config (env : Env) : ServerClient.ServerClientConfig :=
  {| ServerClient.baseURL := API_URL env;
     ServerClient.getToken :=
       Some (λ _, ServerClient.TokenPromise (accessToken env)) |}.

(** The request that a client with that configuration hands to [fetch]. *)
Definition trusted_request `{Platform} (env : Env) (m p : string)
    (body : value) : Request :=
  {| req_url := API_URL env +:+ p;
     req_method := m;
     req_headers :=
       if truthy body
       then <["Content-Type" := "application/json"]>
              {["Authorization" := "Bearer [object Promise]"]}
       else {["Authorization" := "Bearer [object Promise]"]};
     req_body := if truthy body then JSON_stringify body else None |}.

(** The body that the route hands to the client: [post] and [put] take it,
    [get] and [delete] do not. *)
Definition forwarded_body (m : string) (body : value) : value :=
  if (String.eqb m "POST" || String.eqb m "PUT")%bool then body
  else VUndefined.

(** What holds of the records that an instance of the query hook keeps of
    its requests and of its calls of [setState]. *)
Record query_log_inv `{Platform} (h : AutoQuery.instance) : Prop := {
  log_controllers :
    (AutoQuery.sent h).*1 = seq 0 (AutoQuery.fresh h);
  log_requests :
    ∀ c r, (c, r) ∈ AutoQuery.sent h → ∃ p, r = AutoQuery.proxy_request p;
  log_current :
    ∀ c, AutoQuery.cleanup h = Some c →
         (c, AutoQuery.proxy_request (AutoQuery.deps h)) ∈ AutoQuery.sent h;
  log_once :
    NoDup (AutoQuery.updates h).*1;
  log_state :
    AutoQuery.state h
    = match last (AutoQuery.updates h) with
      | Some u => u.2
      | None => {| AutoQuery.data := None; AutoQuery.error := None;
                   AutoQuery.loading := true |}
      end;
  log_final :
    Forall (λ u, AutoQuery.loading u.2 = false) (AutoQuery.updates h);
}.

Definition is_Mutate (ev : AutoMutation.event) : bool :=
  match ev with
  | AutoMutation.Mutate _ => true
  | _ => false
  end.

(** What holds of every instance of the mutation hook that calls and events
    can produce: its calls are numbered in order, each has sent its request
    to the route, and each is either in flight or settled. *)
Record mutation_inv `{Platform} (path : string) (method : AutoMutation.verb)
    (h : AutoMutation.instance) : Prop := {
  calls_known :
    ∀ c, is_Some (AutoMutation.tasks h !! c)
         ∨ is_Some (AutoMutation.promises h !! c) →
         c < AutoMutation.fresh h;
  calls_partition :
    ∀ c, c < AutoMutation.fresh h →
         (is_Some (AutoMutation.tasks h !! c)
          ∧ AutoMutation.promises h !! c = None)
         ∨ (AutoMutation.tasks h !! c = None
            ∧ is_Some (AutoMutation.promises h !! c));
  calls_controllers :
    (AutoMutation.sent h).*1 = seq 0 (AutoMutation.fresh h);
  calls_requests :
    ∀ c r, (c, r) ∈ AutoMutation.sent h →
           ∃ body, r = AutoMutation.proxy_request path method body;
}.


(** The error state of the mutation hook. *)
Definition mutation_failed : AutoMutation.MutationState :=
  {| AutoMutation.data := None; AutoMutation.error := Some "Request failed";
     AutoMutation.loading := false |}.

(** What [await req.json()] gives the route for a request: the body read as
    JSON, an exception when there is none or when it is not JSON. *)
Definition read_json `{Platform} (request : Request) : settled value :=
  match req_body request with
  | Some text =>
      match JSON_parse text with
      | Some v => Resolved v
      | None => Rejected SyntaxError
      end
  | None => Rejected SyntaxError
  end.

(** The object that the query hook serializes into its request. *)
Definition query_message (path : string) : value :=
  VObject [("method", VString "GET"); ("path", VString path)].

(** The object that the mutation hook serializes into its request. *)
Definition mutation_message (path : string) (method : AutoMutation.verb)
    (body : value) : value :=
  VObject [("method", VString (AutoMutation.verb_name method));
           ("path", VString path);
           ("body", body)].

(** The platform carries a message to the route: its JSON text is read back
    as a value with the same properties. *)
Definition carried `{Platform} (message : value) : Prop :=
  ∃ text parsed,
    JSON_stringify message = Some text
    ∧ JSON_parse text = Some parsed
    ∧ ∀ k, get_prop parsed k = get_prop message k.

(** ** Further scenarios *)

Module Cases.

(** A network that cannot be reached. *)
Definition offline : Net := λ _, Rejected Scenario.network_error.

(** The input of the route for a [DELETE] that carries a body. *)
Definition delete_with_body : value :=
  VObject [("method", VString "DELETE"); ("path", VString "/todos/7");
           ("body", Scenario.todo)].

(** The input of the route for a [GET] of a resource that is missing. *)
Definition get_missing : value :=
  VObject [("method", VString "GET"); ("path", VString "/missing")].

(** A mutation hook after one call of [mutate]. *)
Definition one_call : AutoMutation.instance :=
  @AutoMutation.run Reference.platform "/todos" AutoMutation.POST
    [AutoMutation.Mutate Scenario.todo] AutoMutation.useAutoMutation.

End Cases.

(** * Properties *)

(** Case analysis on what the settlement of a promise finds: the suspended
    body, the outcome of the awaited promise, and whether a rejection is an
    abort. *)
Ltac settlement :=
  repeat match goal with
    | |- context [match ?m !! ?c with _ => _ end] =>
        destruct (m !! c) as [[|?]|] eqn:?
    | |- context [match fetch_outcome ?a ?o with _ => _ end] =>
        destruct (fetch_outcome a o) as [?|?] eqn:?
    | |- context [match json_outcome ?a ?r with _ => _ end] =>
        destruct (json_outcome a r) as [?|?] eqn:?
    | |- context [if is_abort ?e then _ else _] =>
        destruct (is_abort e) eqn:?
    end.

(** ** Traces of asynchronous computations *)

Lemma bind_ret_trace {A B} (m : Async A) (f : A → B) (net : Net) trace :
  ((m ≫= λ a, mret (f a)) net trace).2 = (m net trace).2.
Proof.
  unfold mbind, Async_bind, mret, Async_ret.
  by destruct (m net trace) as [[a|e] trace'].
Qed.

Lemma try_catch_ret_trace {A} (m : Async A) (x : A) (net : Net) trace :
  (try_catch m (λ _, mret x) net trace).2 = (m net trace).2.
Proof.
  unfold try_catch, mret, Async_ret.
  by destruct (m net trace) as [[a|e] trace'].
Qed.

(** ** The dispatcher *)

Section Dispatcher.
Context `{Platform}.
Import ServerClient.

Lemma dispatch_request (config : ServerClientConfig) (c : call) :
  dispatch (createServerClient config) c
  = request config (call_method c) (call_path c) (call_body c).
Proof. by destruct c. Qed.

(** [Headers.set] accepts the content type. *)
Lemma set_content_type (headers : gmap string string) :
  Headers_set "Content-Type" "application/json" headers
  = Resolved (<["Content-Type" := "application/json"]> headers).
Proof. reflexivity. Qed.

(** and the text of a promise. *)
Lemma set_promise_token :
  Headers_set "Authorization" ("Bearer " +:+ "[object Promise]") ∅
  = Resolved {["Authorization" := "Bearer [object Promise]"]}.
Proof. reflexivity. Qed.

(** What a call comes to: nothing is sent when the request cannot be built,
    and otherwise one request is, whatever the network answers. *)
Lemma request_run config method path body (net : Net) :
  run_async (request config method path body) net
  = match build_request config method path body with
    | Resolved sent =>
        (match net sent with
         | Resolved response =>
             if ok response then json response
             else Rejected
                    (Error
                       ("Request failed: " +:+ pretty (res_status response)))
         | Rejected e => Rejected e
         end, [sent])
    | Rejected e => (Rejected e, [])
    end.
Proof.
  unfold run_async, request, mbind, Async_bind, await, fetch.
  destruct (build_request config method path body) as [sent|e]; [|done].
  simpl. destruct (net sent) as [response|e]; [|done].
  by destruct (ok response).
Qed.

Lemma request_trace config method path body (sent : Request) (net : Net) :
  build_request config method path body = Resolved sent →
  (run_async (request config method path body) net).2 = [sent].
Proof. intros Hsent. by rewrite request_run, Hsent. Qed.

Lemma request_outcome config method path body (sent : Request) (net : Net) :
  build_request config method path body = Resolved sent →
  (run_async (request config method path body) net).1
  = match net sent with
    | Resolved response =>
        if ok response then json response
        else Rejected
               (Error ("Request failed: " +:+ pretty (res_status response)))
    | Rejected e => Rejected e
    end.
Proof. intros Hsent. by rewrite request_run, Hsent. Qed.

Lemma ok_range (response : Response) :
  ok response = true ↔ (200 ≤ res_status response < 300)%N.
Proof.
  unfold ok. rewrite andb_true_iff, !N.leb_le. lia.
Qed.

(** The request that is built, read off the arguments, but for the
    [Authorization] header. *)
Lemma build_request_inv config method path body (sent : Request) :
  build_request config method path body = Resolved sent →
  req_url sent = baseURL config +:+ path
  ∧ req_method sent = method
  ∧ req_body sent = (if truthy body then JSON_stringify body else None)
  ∧ req_headers sent !! "Content-Type"
    = (if truthy body then Some "application/json" else None)
  ∧ ∀ name value, req_headers sent !! name = Some value →
      name = "Authorization" ∨ name = "Content-Type".
Proof.
  unfold build_request.
  match goal with
  | |- mbind _ ?m = _ → _ => destruct m as [headers|e] eqn:Hauth
  end; cbn [mbind settled_bind]; [|intros; discriminate].
  assert (headers = ∅ ∨ ∃ v, headers = <["Authorization" := v]> ∅) as Hh.
  { destruct (getToken config) as [f|]; [|left; congruence].
    unfold Headers_set in Hauth.
    destruct (f ()) as [?|?|?]; [| |discriminate];
      (destruct (token_truthy _); [|left; congruence]);
      (destruct (is_header_value _); [|discriminate]);
      injection Hauth as <-; eauto. }
  rewrite set_content_type.
  destruct (truthy body); intros [= <-]; simpl;
    (do 3 (split; [done|])); (split;
    [destruct Hh as [->|[v ->]]; by simplify_map_eq|]);
    intros name value Hlook;
    destruct Hh as [->|[v ->]];
    repeat (apply lookup_insert_Some in Hlook as [[<- _]|[_ Hlook]];
            [by auto|]);
    by rewrite lookup_empty in Hlook.
Qed.

(** A provider that answers with a promise: the request is built, and its
    header holds the text of the promise. *)
Lemma promise_token_request config method path body
    (f : unit → token) (eventual : option string) :
  getToken config = Some f → f () = TokenPromise eventual →
  build_request config method path body
  = Resolved
      {| req_url := baseURL config +:+ path;
         req_method := method;
         req_headers :=
           if truthy body
           then <["Content-Type" := "application/json"]>
                  {["Authorization" := "Bearer [object Promise]"]}
           else {["Authorization" := "Bearer [object Promise]"]};
         req_body := if truthy body then JSON_stringify body else None |}.
Proof.
  intros Hcfg Hf. unfold build_request. rewrite Hcfg, Hf.
  cbn [token_truthy token_to_string].
  rewrite set_promise_token.
  cbn [mbind settled_bind]. rewrite set_content_type.
  by destruct (truthy body).
Qed.

(** Values that [Headers.set] stores as they are. *)
Lemma trim_end_app (a b : string) :
  trim_end b ≠ "" → trim_end (a +:+ b) = a +:+ trim_end b.
Proof.
  intros Hb. induction a as [|c a IH]; [done|].
  change (String c a +:+ b) with (String c (a +:+ b)).
  change (String c a +:+ trim_end b) with (String c (a +:+ trim_end b)).
  cbn [trim_end]. rewrite IH.
  destruct (a +:+ trim_end b) eqn:Heq; [|done].
  destruct a; [|discriminate]. by destruct Hb.
Qed.

Lemma is_header_value_app (a b : string) :
  is_header_value (a +:+ b) = is_header_value a && is_header_value b.
Proof.
  induction a as [|c a IH]; [done|].
  change (String c a +:+ b) with (String c (a +:+ b)).
  cbn [is_header_value]. by rewrite IH, andb_assoc.
Qed.

Lemma bearer_as_written (X : string) :
  X ≠ "" → trim_end X = X → is_header_value X = true →
  normalize_header_value ("Bearer " +:+ X) = "Bearer " +:+ X
  ∧ is_header_value ("Bearer " +:+ X) = true.
Proof.
  intros HX Htrim Hvalue. split.
  - unfold normalize_header_value.
    change (trim_start ("Bearer " +:+ X)) with ("Bearer " +:+ X).
    rewrite trim_end_app; by rewrite Htrim.
  - by rewrite is_header_value_app, Hvalue.
Qed.

(** A provider that answers at once: [undefined] and the empty string are
    as no provider, and a non-empty string [X] sets the header to what
    [Headers.set] makes of [Bearer X]. *)
Lemma sync_token_header config method path body
    (f : unit → token) (t : option string) :
  getToken config = Some f → f () = TokenNow t →
  build_request config method path body
  = match t with
    | Some X =>
        if String.eqb X ""
        then build_request {| baseURL := baseURL config; getToken := None |}
               method path body
        else
          headers ← Headers_set "Authorization" ("Bearer " +:+ X) ∅;
          Resolved
            {| req_url := baseURL config +:+ path;
               req_method := method;
               req_headers :=
                 if truthy body
                 then <["Content-Type" := "application/json"]> headers
                 else headers;
               req_body := if truthy body then JSON_stringify body else None |}
    | None =>
        build_request {| baseURL := baseURL config; getToken := None |}
          method path body
    end.
Proof.
  intros Hcfg Hf. unfold build_request. rewrite Hcfg, Hf.
  cbn [getToken baseURL token_truthy token_to_string].
  destruct t as [X|]; [|done].
  destruct (String.eqb X ""); cbn [negb]; [done|].
  destruct (Headers_set "Authorization" ("Bearer " +:+ X) ∅) as [headers|e];
    cbn [mbind settled_bind]; [|done].
  rewrite set_content_type. by destruct (truthy body).
Qed.

Lemma no_provider_request (base method path : string) (body : value) :
  build_request {| baseURL := base; getToken := None |} method path body
  = Resolved
      {| req_url := base +:+ path;
         req_method := method;
         req_headers :=
           if truthy body
           then {["Content-Type" := "application/json"]}
           else ∅;
         req_body := if truthy body then JSON_stringify body else None |}.
Proof.
  unfold build_request. cbn [getToken baseURL mbind settled_bind].
  rewrite set_content_type. by destruct (truthy body).
Qed.

(** C1: the provider is invoked but its result is not awaited.  When
    [getToken] is asynchronous, the token tested and interpolated is the
    promise itself: every call then sends exactly one request, and that
    request carries [Authorization: Bearer [object Promise]], whether the
    promise yields a token [X] or none. *)
Theorem C1_promise_token_not_awaited
    (base : string) (eventual : option string) (c : call) (net : Net) :
  let config := {| baseURL := base;
                   getToken := Some (λ _, TokenPromise eventual) |} in
  ∃ sent : Request,
    (run_async (dispatch (createServerClient config) c) net).2 = [sent]
    ∧ req_headers sent !! "Authorization" = Some "Bearer [object Promise]".
Proof.
  intros config. rewrite dispatch_request.
  eexists. split.
  - apply request_trace.
    by apply (promise_token_request config _ _ _
                (λ _, TokenPromise eventual) eventual).
  - simpl. destruct (truthy (call_body c)); by simplify_map_eq.
Qed.

(** [serverQuery] is such a call: its [getToken] is an [async] function. *)
Lemma serverQuery_sends_promise (env : Env) (path : string) (net : Net) :
  ∃ sent : Request,
    (run_async (serverQuery env path) net).2 = [sent]
    ∧ req_url sent = API_URL env +:+ path
    ∧ req_method sent = "GET"
    ∧ req_headers sent !! "Authorization" = Some "Bearer [object Promise]".
Proof.
  unfold serverQuery. simpl. eexists. split.
  - apply request_trace.
    by apply (promise_token_request _ _ _ _
                (λ _, TokenPromise (accessToken env)) (accessToken env)).
  - done.
Qed.

(** C5: the status of the response decides the outcome of a call.  With a
    status in [200,300) the call settles as the JSON decoding of the body
    does, so it resolves with the decoded value, whatever it is; with a status
    of 300 or more it rejects with the error [Request failed: <status>]. *)
Theorem C5_status_decides_outcome
    (config : ServerClientConfig) (c : call) (net : Net)
    (sent : Request) (response : Response) :
  build_request config (call_method c) (call_path c) (call_body c)
    = Resolved sent →
  net sent = Resolved response →
  let outcome := (run_async (dispatch (createServerClient config) c) net).1 in
  ((200 ≤ res_status response < 300)%N →
     outcome = json response
     ∧ ∀ text v, res_body response = ReadText text → JSON_parse text = Some v →
         outcome = Resolved v)
  ∧ ((300 ≤ res_status response)%N →
     outcome
     = Rejected (Error ("Request failed: " +:+ pretty (res_status response)))).
Proof.
  intros Hsent Hnet outcome. subst outcome.
  rewrite dispatch_request, (request_outcome _ _ _ _ sent), Hnet by done.
  split.
  - intros Hok%ok_range. rewrite Hok. split; [done|].
    intros text v Hbody Hparse. unfold json. by rewrite Hbody, Hparse.
  - intros Hhigh.
    destruct (ok response) eqn:Hok; [|done].
    apply ok_range in Hok. lia.
Qed.

(** C7 (amended): the request that a call hands to [fetch] is the one
    request it sends.  When the call is a [post] or a [put], that request
    carries the body exactly when the body is truthy: a truthy, JSON
    serializable body goes out under [Content-Type: application/json] as its
    JSON text, so that decoding the payload gives the body back; a falsy
    body, [undefined] or defined, goes out without payload and without
    [Content-Type].  A [delete] takes no body and sends neither. *)
Theorem C7_truthy_body_is_sent
    (config : ServerClientConfig) (path : string) (body : value) (net : Net)
    (c : call) (sent : Request) :
  build_request config (call_method c) (call_path c) (call_body c)
    = Resolved sent →
  (run_async (dispatch (createServerClient config) c) net).2 = [sent]
  ∧ (c = CallPost path body ∨ c = CallPut path body →
       (truthy body = true →
        JSON_stringify body ≫= JSON_parse = Some body →
          carries_json_body sent body)
       ∧ (truthy body = false →
            req_body sent = None
            ∧ req_headers sent !! "Content-Type" = None))
  ∧ (c = CallDelete path →
       req_body sent = None ∧ req_headers sent !! "Content-Type" = None).
Proof.
  intros Hsent. split; [|split].
  - rewrite dispatch_request. by apply request_trace.
  - intros Hc.
    assert (call_body c = body) as Hbody by (by destruct Hc as [-> | ->]).
    rewrite Hbody in Hsent.
    apply build_request_inv in Hsent as (_ & _ & Hpayload & Hct & _).
    split.
    + intros Htruthy Hrt. rewrite Htruthy in Hpayload, Hct.
      split; [done|].
      destruct (JSON_stringify body) as [payload|] eqn:Hs; [|done].
      exists payload. by simpl in Hrt.
    + intros Hfalsy. by rewrite Hfalsy in Hpayload, Hct.
  - intros ->.
    by apply build_request_inv in Hsent as (_ & _ & Hpayload & Hct & _).
Qed.

End Dispatcher.

(** ** The proxy route *)

Section ProxyRoute.
Context `{Platform}.

Lemma includes_allowed (method : value) :
  Proxy.includes Proxy.ALLOWED_METHODS method = true ↔ allowed_method method.
Proof.
  unfold allowed_method. split.
  - destruct method as [| | | |m| |]; try done. simpl.
    rewrite !orb_true_iff, !String.eqb_eq.
    intros Hm. exists m. split; [done|].
    rewrite !elem_of_cons, elem_of_nil. intuition congruence.
  - intros (m & -> & Hm). simpl.
    rewrite !orb_true_iff, !String.eqb_eq.
    rewrite !elem_of_cons, elem_of_nil in Hm. intuition congruence.
Qed.

Lemma startsWith_rooted (p : string) :
  startsWith p "/" = true ↔ rooted_path (VString p).
Proof.
  unfold rooted_path. split.
  - destruct p as [|c rest]; [intros; discriminate|].
    cbn [startsWith]. destruct rest; rewrite andb_true_r;
      intros <-%Ascii.eqb_eq; eauto.
  - intros (rest & [= ->]). reflexivity.
Qed.

Lemma get_prop_nullish (payload : value) (k : string) :
  get_prop (Proxy.nullish_default payload) k = get_prop payload k.
Proof. by destruct payload. Qed.

(** The client of the route always builds its request. *)
Lemma trusted_request_built (env : Env) (m p : string) (b : value) :
  ServerClient.build_request (trusted_config env) m p b
  = Resolved (trusted_request env m p b).
Proof.
  apply (promise_token_request (trusted_config env) m p b
           (λ _, ServerClient.TokenPromise (accessToken env))
           (accessToken env)); done.
Qed.

Lemma ServerClient_request_trace (env : Env) (m p : string) (b : value)
    (net : Net) :
  (ServerClient.request (trusted_config env) m p b net []).2
  = [trusted_request env m p b].
Proof.
  apply (request_trace (trusted_config env) m p b _ net),
    trusted_request_built.
Qed.

(** Behind the validations, one request goes upstream. *)
Lemma forward_dispatches env (m p : string) (body : value) (net : Net) :
  m ∈ ["GET"; "POST"; "PUT"; "DELETE"] →
  dispatched env (run_async (Proxy.forward env (VString m) p body) net) m p.
Proof.
  intros Hm. unfold dispatched, Proxy.forward, run_async.
  rewrite try_catch_ret_trace, bind_ret_trace.
  assert (m = "GET" ∨ m = "POST" ∨ m = "PUT" ∨ m = "DELETE")
    as [-> | [-> | [-> | ->]]]
    by (rewrite !elem_of_cons, elem_of_nil in Hm; intuition congruence);
    simpl; fold (trusted_config env);
    rewrite ServerClient_request_trace; by eexists.
Qed.

Lemma refused_ret (message : string) (net : Net) :
  refused
    (run_async
       (mret
          (Proxy.NextResponse_json (VObject [("error", VString message)]) 400))
       net).
Proof.
  split; [done|]. do 2 eexists. split; [done|]. simpl. split; [lia|done].
Qed.

(** C6: the route refuses, with a 400 response carrying an [error] message
    and without sending anything upstream, every input whose method is not
    one of GET, POST, PUT, DELETE and every input whose path is not a string
    starting with a slash; an input that passes both conditions is
    dispatched, one request going upstream for its method and path. *)
Theorem C6_proxy_validates_before_dispatch
    (env : Env) (payload : value) (net : Net) :
  let method := get_prop payload "method" in
  let path := get_prop payload "path" in
  let result := run_async (Proxy.POST env (Resolved payload)) net in
  (¬ allowed_method method ∨ ¬ rooted_path path → refused result)
  ∧ (allowed_method method → rooted_path path →
       ∃ m p, method = VString m ∧ path = VString p
              ∧ dispatched env result m p).
Proof.
  intros method path result. subst result.
  unfold Proxy.POST. rewrite !get_prop_nullish. fold method path.
  destruct (Proxy.includes Proxy.ALLOWED_METHODS method) eqn:Hinc; cbn [negb].
  - apply includes_allowed in Hinc as Hallowed.
    destruct path as [| | | |p| |] eqn:Hpath;
      try (split; [intros _; apply refused_ret | by intros _ (rest & [=])]).
    destruct (startsWith p "/") eqn:Hpre; cbn [negb].
    + apply startsWith_rooted in Hpre as Hrooted. split.
      * intros [Hno|Hno]; by destruct Hno.
      * intros _ _. destruct Hallowed as (m & Hm & Hin).
        exists m, p. split; [done|]. split; [done|].
        rewrite Hm. by apply forward_dispatches.
    + split; [intros _; apply refused_ret|].
      intros _ Hrooted. apply startsWith_rooted in Hrooted. congruence.
  - split; [intros _; apply refused_ret|].
    intros Hallowed. apply includes_allowed in Hallowed. congruence.
Qed.

End ProxyRoute.

(** ** The query hook *)

Section QueryHook.
Context `{Platform}.
Import AutoQuery.

Lemma useAutoQuery_inv (path : string) : query_inv (useAutoQuery path).
Proof.
  split; simpl.
  - intros c [t Ht].
    apply lookup_insert_Some in Ht as [[<- _]|[_ Ht]]; [lia|done].
  - intros c [t Ht] Hc.
    apply lookup_insert_Some in Ht as [[<- _]|[_ Ht]]; done.
  - intros c [= <-]. lia.
  - intros c s Hin. by apply elem_of_nil in Hin.
  - done.
Qed.

(** Every event either leaves the state alone or is the completion of a
    pending request whose controller has not been aborted. *)
Lemma step_cases (ev : event) (h : instance) :
  (state (step ev h) = state h ∧ updates (step ev h) = updates h)
  ∨ (∃ c s, is_Some (tasks h !! c) ∧ (c ∉ aborted h)
       ∧ updates (step ev h) = (updates h ++ [(c, s)])%list
       ∧ state (step ev h) = (if mounted h then s else state h)).
Proof.
  destruct ev as [path| |c answer|c]; simpl.
  - left. destruct (mounted h); [|done].
    by destruct (String.eqb path (deps h)).
  - left. by destruct (mounted h).
  - destruct (tasks h !! c) as [[|res]|] eqn:Htask; [|by left..].
    unfold fetch_outcome. case_bool_decide as Hab; [by left|].
    destruct answer as [res|err]; [by left|].
    unfold catch. destruct (is_abort err); [by left|].
    right. exists c. eexists. by rewrite Htask.
  - destruct (tasks h !! c) as [[|res]|] eqn:Htask; [by left| |by left].
    unfold json_outcome. case_bool_decide as Hab; [by left|].
    destruct (json res) as [v|err].
    + right. exists c. eexists. by rewrite Htask.
    + unfold catch. destruct (is_abort err); [by left|].
      right. exists c. eexists. by rewrite Htask.
Qed.

(** The settlement of a promise touches nothing but the state, the pending
    bodies and the record of [setState] calls. *)
Lemma settlement_frame (ev : event) (h : instance) :
  (∃ c answer, ev = FetchSettled c answer) ∨ (∃ c, ev = BodyRead c) →
  mounted (step ev h) = mounted h
  ∧ deps (step ev h) = deps h
  ∧ cleanup (step ev h) = cleanup h
  ∧ aborted (step ev h) = aborted h
  ∧ fresh (step ev h) = fresh h
  ∧ sent (step ev h) = sent h.
Proof.
  intros [(c & answer & ->)|(c & ->)]; simpl; unfold catch; by settlement.
Qed.

Lemma step_fresh (ev : event) (h : instance) : fresh h ≤ fresh (step ev h).
Proof.
  destruct ev as [path| |c answer|c].
  - simpl. destruct (mounted h); [|done].
    destruct (String.eqb path (deps h)); simpl; lia.
  - simpl. by destruct (mounted h).
  - destruct (settlement_frame (FetchSettled c answer) h)
      as (_ & _ & _ & _ & -> & _); eauto.
  - destruct (settlement_frame (BodyRead c) h)
      as (_ & _ & _ & _ & -> & _); eauto.
Qed.

Lemma step_aborted (ev : event) (h : instance) :
  aborted h ⊆ aborted (step ev h).
Proof.
  destruct ev as [path| |c answer|c].
  - simpl. destruct (mounted h); [|done].
    destruct (String.eqb path (deps h)); simpl; [done|].
    destruct (cleanup h); [apply union_subseteq_r|done].
  - simpl. destruct (mounted h); simpl; [|done].
    destruct (cleanup h); [apply union_subseteq_r|done].
  - destruct (settlement_frame (FetchSettled c answer) h)
      as (_ & _ & _ & -> & _); eauto.
  - destruct (settlement_frame (BodyRead c) h)
      as (_ & _ & _ & -> & _); eauto.
Qed.

Lemma step_cleanup (ev : event) (h : instance) (c : nat) :
  cleanup (step ev h) = Some c → cleanup h = Some c ∨ c = fresh h.
Proof.
  destruct ev as [path| |c' answer|c'].
  - simpl. destruct (mounted h); [|by left].
    destruct (String.eqb path (deps h)); [by left|].
    simpl. intros [= <-]. by right.
  - simpl. destruct (mounted h); [done|by left].
  - destruct (settlement_frame (FetchSettled c' answer) h)
      as (_ & _ & -> & _); eauto.
  - destruct (settlement_frame (BodyRead c') h)
      as (_ & _ & -> & _); eauto.
Qed.

Lemma step_unmounted (ev : event) (h : instance) :
  mounted h = false → mounted (step ev h) = false.
Proof.
  intros Hm. destruct ev as [path| |c answer|c].
  - simpl. by rewrite Hm.
  - simpl. by rewrite Hm.
  - destruct (settlement_frame (FetchSettled c answer) h) as (-> & _); eauto.
  - destruct (settlement_frame (BodyRead c) h) as (-> & _); eauto.
Qed.

(** A finished or suspended body keeps the invariant. *)
Lemma set_task_inv (c : nat) (t : option suspended) (h : instance) :
  is_Some (tasks h !! c) → query_inv h → query_inv (set_task c t h).
Proof.
  intros Hc [Hknown Hsup Hcl Hupd Hun]. split; simpl; [| |done| |done].
  - intros c' [t' Ht']. destruct t as [t|].
    + apply lookup_insert_Some in Ht' as [[<- _]|[_ Ht']]; eauto.
    + apply lookup_delete_Some in Ht' as [_ Ht']. eauto.
  - intros c' [t' Ht'] Hne. destruct t as [t|].
    + apply lookup_insert_Some in Ht' as [[<- _]|[_ Ht']]; eauto.
    + apply lookup_delete_Some in Ht' as [_ Ht']. eauto.
  - intros c' s Hin. destruct (Hupd c' s Hin) as [Hnone Hlt]. split; [|done].
    assert (c ≠ c') by (intros ->; rewrite Hnone in Hc; by destruct Hc).
    destruct t as [t|];
      [by rewrite lookup_insert_ne|by rewrite lookup_delete_ne].
Qed.

Lemma setState_inv (c : nat) (s : QueryState) (h : instance) :
  tasks h !! c = None → c < fresh h → query_inv h → query_inv (setState c s h).
Proof.
  intros Hnone Hlt [Hknown Hsup Hcl Hupd Hun]. split; simpl; [done..| |done].
  intros c' s' [Hin|[= -> ->]%list_elem_of_singleton]%elem_of_app; eauto.
Qed.

Lemma catch_inv (c : nat) (err : js_error) (h : instance) :
  tasks h !! c = None → c < fresh h → query_inv h → query_inv (catch c err h).
Proof.
  intros. unfold catch. destruct (is_abort err); [done|]. by apply setState_inv.
Qed.

Lemma step_inv (ev : event) (h : instance) :
  query_inv h → query_inv (step ev h).
Proof.
  intros Hinv. destruct ev as [path| |c answer|c]; simpl.
  - destruct (mounted h) eqn:Hm; [|done].
    destruct (String.eqb path (deps h)); [done|].
    destruct Hinv as [Hknown Hsup Hcl Hupd Hun]. split; simpl.
    + intros c [t Ht].
      apply lookup_insert_Some in Ht as [[<- _]|[_ Ht]]; [lia|].
      assert (c < fresh h) by eauto. lia.
    + intros c [t Ht] Hne.
      apply lookup_insert_Some in Ht as [[<- _]|[_ Ht]]; [done|].
      destruct (cleanup h) as [c'|] eqn:Hc'.
      * destruct (decide (c = c')) as [->|];
          [by apply elem_of_union_l, elem_of_singleton|].
        apply elem_of_union_r, Hsup; [eauto|congruence].
      * apply Hsup; [eauto|congruence].
    + intros c [= <-]. lia.
    + intros c s Hin. destruct (Hupd c s Hin) as [Hnone Hlt].
      split; [|lia]. rewrite lookup_insert_ne; [done|lia].
    + congruence.
  - destruct (mounted h) eqn:Hm; [|done].
    destruct Hinv as [Hknown Hsup Hcl Hupd Hun].
    split; simpl; [done| |done|done|done].
    intros c Hc _. destruct (cleanup h) as [c'|] eqn:Hc'.
    + destruct (decide (c = c')) as [->|];
        [by apply elem_of_union_l, elem_of_singleton|].
      apply elem_of_union_r, Hsup; [eauto|congruence].
    + apply Hsup; [eauto|congruence].
  - destruct (tasks h !! c) as [[|res]|] eqn:Htask; [|done..].
    assert (is_Some (tasks h !! c)) as Hc by (by rewrite Htask).
    assert (c < fresh h) by (by apply Hinv).
    destruct (fetch_outcome _ _) as [res|err].
    + by apply set_task_inv.
    + apply catch_inv; simpl;
        [apply lookup_delete_eq|done|by apply set_task_inv].
  - destruct (tasks h !! c) as [[|res]|] eqn:Htask; [done| |done].
    assert (is_Some (tasks h !! c)) as Hc by (by rewrite Htask).
    assert (c < fresh h) by (by apply Hinv).
    destruct (json_outcome _ _) as [v|err].
    + apply setState_inv; simpl;
        [apply lookup_delete_eq|done|by apply set_task_inv].
    + apply catch_inv; simpl;
        [apply lookup_delete_eq|done|by apply set_task_inv].
Qed.

Lemma run_inv (evs : list event) (h : instance) :
  query_inv h → query_inv (run evs h).
Proof.
  revert h. induction evs as [|ev evs IH]; intros h Hinv; [done|].
  apply IH. by apply step_inv.
Qed.

(** The sole concurrency invariant: a completion sets the state only if its
    request is the one of the latest activation. *)
Lemma update_by_current (ev : event) (h : instance) :
  query_inv h →
  (state (step ev h) = state h ∧ updates (step ev h) = updates h)
  ∨ (∃ c s, cleanup h = Some c
       ∧ updates (step ev h) = (updates h ++ [(c, s)])%list
       ∧ state (step ev h) = s).
Proof.
  intros Hinv.
  destruct (step_cases ev h) as [?|(c & s & Hc & Hab & Hupd & Hst)]; [by left|].
  right. exists c, s.
  assert (cleanup h = Some c) as Hcur.
  { destruct (decide (cleanup h = Some c)); [done|].
    destruct Hab. by apply Hinv. }
  split; [done|]. split; [done|].
  destruct (mounted h) eqn:Hm; [done|].
  apply Hinv in Hm. congruence.
Qed.

(** From an instance whose latest controller is numbered [n] or more, every
    further call of [setState] comes from a controller numbered [n] or more. *)
Lemma run_updates (evs : list event) (h : instance) (n : nat) :
  query_inv h → (∀ c, cleanup h = Some c → n ≤ c) → n ≤ fresh h →
  ∃ new, updates (run evs h) = (updates h ++ new)%list
         ∧ ∀ c s, (c, s) ∈ new → n ≤ c.
Proof.
  revert h. induction evs as [|ev evs IH]; intros h Hinv Hcur Hfresh.
  { exists []. split; [by rewrite app_nil_r|].
    intros c s Hin. by apply elem_of_nil in Hin. }
  destruct (IH (step ev h)) as (new & Hnew & Hfrom).
  - by apply step_inv.
  - intros c [Hc| ->]%step_cleanup; [by apply Hcur|done].
  - pose proof (step_fresh ev h). lia.
  - change (run (ev :: evs) h) with (run evs (step ev h)).
    destruct (update_by_current ev h Hinv)
      as [[_ Hupd]|(c & s & Hc & Hupd & _)].
    + exists new. by rewrite Hnew, Hupd.
    + exists ((c, s) :: new). split.
      * by rewrite Hnew, Hupd, <- app_assoc.
      * intros c' s' [[= -> ->]|Hin]%elem_of_cons; [by apply Hcur|eauto].
Qed.

(** An aborted request has no effect on the state, whatever is delivered
    for it. *)
Lemma aborted_inert (h : instance) (c : nat) :
  c ∈ aborted h →
  (∀ answer, state (step (FetchSettled c answer) h) = state h
             ∧ updates (step (FetchSettled c answer) h) = updates h)
  ∧ state (step (BodyRead c) h) = state h
  ∧ updates (step (BodyRead c) h) = updates h.
Proof.
  intros Hab. split; [intros answer|]; simpl.
  - destruct (tasks h !! c) as [[|res]|]; [|done..].
    by rewrite bool_decide_eq_true_2.
  - destruct (tasks h !! c) as [[|res]|]; [done| |done].
    by rewrite bool_decide_eq_true_2.
Qed.

Lemma run_aborted (evs : list event) (h : instance) :
  aborted h ⊆ aborted (run evs h).
Proof.
  revert h. induction evs as [|ev evs IH]; intros h; [done|].
  etrans; [apply (step_aborted ev)|apply IH].
Qed.

(** C2: when the hook is re-activated with a new path while the request of
    the current activation is still pending, that request never sets the
    state afterwards: it made no call of [setState] and makes none, whatever
    arrives for it and whenever; every later call of [setState] comes from
    the request of the new activation or of a later one. *)
Theorem C2_superseded_request_never_sets_state
    (path0 : string) (before after : list event) (A B : string) (c : nat) :
  let h := run before (useAutoQuery path0) in
  mounted h = true → deps h = A → cleanup h = Some c →
  is_Some (tasks h !! c) → A ≠ B →
  let h' := run after (step (Render B) h) in
  (∀ s, (c, s) ∉ updates h')
  ∧ (∀ i s, (i, s) ∈ updates h' → (i, s) ∈ updates h ∨ fresh h ≤ i)
  ∧ (∀ answer, state (step (FetchSettled c answer) h') = state h'
               ∧ updates (step (FetchSettled c answer) h') = updates h')
  ∧ state (step (BodyRead c) h') = state h'
  ∧ updates (step (BodyRead c) h') = updates h'.
Proof.
  intros h Hm Hdeps Hcur Hpending Hne h'.
  assert (query_inv h) as Hinv by apply run_inv, useAutoQuery_inv.
  assert (step (Render B) h = run_effect B (run_cleanup h)) as Hstep.
  { simpl. rewrite Hm, Hdeps.
    destruct (String.eqb B A) eqn:Heq; [|done].
    apply String.eqb_eq in Heq. congruence. }
  set (h1 := step (Render B) h) in *.
  assert (query_inv h1) as Hinv1 by apply step_inv, Hinv.
  assert (c ∈ aborted h1) as Hab1.
  { rewrite Hstep. simpl. rewrite Hcur. set_solver. }
  assert (c ∈ aborted h') as Hab by (by apply run_aborted).
  destruct (run_updates after h1 (fresh h)) as (new & Hnew & Hfrom); [done|..].
  { rewrite Hstep. simpl. by intros i [= <-]. }
  { rewrite Hstep. simpl. lia. }
  fold h' in Hnew.
  assert (updates h1 = updates h) as Hupd1 by (by rewrite Hstep).
  rewrite Hupd1 in Hnew.
  assert (c < fresh h) as Hlt by (by apply Hinv).
  split; [|split; [|by apply aborted_inert]].
  - intros s. rewrite Hnew. intros [Hin|Hin]%elem_of_app.
    + apply Hinv in Hin as [Hnone _]. rewrite Hnone in Hpending.
      by destruct Hpending.
    + apply Hfrom in Hin. lia.
  - intros i s. rewrite Hnew. intros [Hin|Hin]%elem_of_app; [by left|].
    right. by eapply Hfrom.
Qed.

(** C10: the query hook does not look at the status of the response.  When
    the request of the current activation is answered by a response whose
    body parses as JSON, the hook goes to success with the parsed body in
    [data], whatever the status; and a call of [setState] that sets [error]
    sets it to [Request failed] and is made only when the awaited [fetch] or
    the decoding of the body threw an exception that is not an abort. *)
Theorem C10_query_ignores_status
    (h : instance) (c : nat) (res : Response) (text : string) (v : value)
    (ev : event) (c' : nat) (s : QueryState) :
  (mounted h = true → tasks h !! c = Some AwaitFetch → c ∉ aborted h →
   res_body res = ReadText text → JSON_parse text = Some v →
     state (run [FetchSettled c (Resolved res); BodyRead c] h)
     = {| data := Some v; error := None; loading := false |})
  ∧ (updates (step ev h) = (updates h ++ [(c', s)])%list → error s ≠ None →
     error s = Some "Request failed"
     ∧ ∃ err, query_thrown ev h = Some err ∧ is_abort err = false).
Proof.
  split.
  - intros Hm Htask Hab Hbody Hparse. simpl. rewrite Htask.
    rewrite bool_decide_eq_false_2 by done. simpl.
    rewrite lookup_insert_eq, bool_decide_eq_false_2 by done.
    unfold json_outcome, json. rewrite Hbody, Hparse. simpl. by rewrite Hm.
  - intros Hupd Herr.
    assert (∀ l (x : nat * QueryState), l ≠ (l ++ [x])%list) as Hneq.
    { intros l x Heq. apply (f_equal length) in Heq.
      rewrite length_app in Heq. simpl in Heq. lia. }
    destruct ev as [path| |c0 answer|c0]; simpl in Hupd |- *.
    + destruct (mounted h); [|by apply Hneq in Hupd].
      destruct (String.eqb path (deps h)); by apply Hneq in Hupd.
    + destruct (mounted h); by apply Hneq in Hupd.
    + destruct (tasks h !! c0) as [[|res0]|]; [|by apply Hneq in Hupd..].
      destruct (fetch_outcome _ _) as [res0|err]; [by apply Hneq in Hupd|].
      unfold catch in Hupd. destruct (is_abort err) eqn:Habort;
        [by apply Hneq in Hupd|].
      simpl in Hupd. apply app_inj_tail in Hupd as [_ [= <- <-]]. eauto.
    + destruct (tasks h !! c0) as [[|res0]|];
        [by apply Hneq in Hupd| |by apply Hneq in Hupd].
      destruct (json_outcome _ _) as [v0|err].
      * simpl in Hupd. apply app_inj_tail in Hupd as [_ [= <- <-]]. done.
      * unfold catch in Hupd. destruct (is_abort err) eqn:Habort;
          [by apply Hneq in Hupd|].
        simpl in Hupd. apply app_inj_tail in Hupd as [_ [= <- <-]]. eauto.
Qed.

(** C4, on a path change: the effect issues the POST for the new path under
    a new controller, but makes no call of [setState]; the state stays as the
    previous request left it, neither set to loading nor cleared. *)
Theorem C4_path_change_keeps_state (h : instance) (path : string) :
  mounted h = true → path ≠ deps h →
  let h' := step (Render path) h in
  state h' = state h
  ∧ updates h' = updates h
  ∧ sent h' = (sent h ++ [(fresh h, proxy_request path)])%list.
Proof.
  intros Hm Hne. simpl. rewrite Hm.
  destruct (String.eqb path (deps h)) eqn:Heq; [|done].
  by apply String.eqb_eq in Heq.
Qed.

(** At mount the state is loading and the request is issued. *)
Lemma mount_is_loading (path : string) :
  state (useAutoQuery path) = {| data := None; error := None; loading := true |}
  ∧ sent (useAutoQuery path) = [(0, proxy_request path)].
Proof. done. Qed.

(** What unmounting the query hook does: the pending request is aborted and
    the state is never set again. *)
Lemma query_unmount_cancels (h : instance) (c : nat) (after : list event) :
  query_inv h → mounted h = true → cleanup h = Some c →
  let h' := step Unmount h in
  c ∈ aborted h'
  ∧ updates (run after h') = updates h'
  ∧ state (run after h') = state h'.
Proof.
  intros Hinv Hm Hcur h'.
  assert (query_inv h') as Hinv' by apply step_inv, Hinv.
  assert (mounted h' = false) as Hun by (subst h'; simpl; by rewrite Hm).
  split; [subst h'; simpl; rewrite Hm; simpl; rewrite Hcur; set_solver|].
  clear Hinv Hm Hcur. clearbody h'. revert h' Hinv' Hun.
  induction after as [|ev evs IH]; intros h' Hinv' Hun; [done|].
  change (run (ev :: evs) h') with (run evs (step ev h')).
  destruct (update_by_current ev h' Hinv') as [[Hst Hupd]|(c' & s & Hc' & _)].
  - rewrite <- Hst, <- Hupd.
    apply IH; [by apply step_inv|by apply step_unmounted].
  - apply Hinv' in Hun. congruence.
Qed.

End QueryHook.

(** ** The mutation hook *)

Section MutationHook.
Context `{Platform}.
Variable path : string.
Variable method : AutoMutation.verb.
Import AutoMutation.

(** Nothing in the hook calls [abort]. *)
Lemma step_aborted_same (ev : event) (h : instance) :
  aborted (step path method ev h) = aborted h.
Proof. destruct ev; simpl; unfold catch; by settlement. Qed.

Lemma run_aborted_same (evs : list event) (h : instance) :
  aborted (run path method evs h) = aborted h.
Proof.
  revert h. induction evs as [|ev evs IH]; intros h; [done|].
  change (run path method (ev :: evs) h)
    with (run path method evs (step path method ev h)).
  by rewrite IH, step_aborted_same.
Qed.

Lemma never_aborted (evs : list event) :
  aborted (run path method evs useAutoMutation) = ∅.
Proof. by rewrite run_aborted_same. Qed.

(** The request of a call completes with a result that is not an abort:
    the state is set and the promise of the call is settled, mounted or
    not. *)
Lemma completion (h : instance) (c : nat) (answer : settled Response) :
  tasks h !! c = Some AwaitFetch → c ∉ aborted h →
  (∀ e, call_result answer = Rejected e → is_abort e = false) →
  let h' := run path method (completes c answer) h in
  updates h' = (updates h ++ [(c, reflected (call_result answer))])%list
  ∧ state h' = (if mounted h then reflected (call_result answer) else state h)
  ∧ promises h' = <[c := call_result answer]> (promises h)
  ∧ tasks h' = base.delete c (tasks h)
  ∧ aborted h' = aborted h ∧ mounted h' = mounted h ∧ fresh h' = fresh h.
Proof.
  intros Htask Hab Hres. simpl. rewrite Htask.
  rewrite bool_decide_eq_false_2 by done.
  destruct answer as [res|err]; simpl.
  - rewrite lookup_insert_eq. simpl.
    rewrite bool_decide_eq_false_2 by done. simpl.
    destruct (json res) as [v|err] eqn:Hjson; simpl.
    + rewrite delete_insert_eq. done.
    + unfold catch. rewrite (Hres err) by done. simpl.
      rewrite delete_insert_eq. done.
  - unfold catch. rewrite (Hres err) by done. simpl.
    rewrite lookup_delete_eq. done.
Qed.


(** C8, on the mutation hook: unmounting while a call of [mutate] is in
    flight aborts nothing, since no controller of the hook is ever aborted, and
    the completion of the request still calls [setState] afterwards. *)
Theorem C8_mutation_unmount_does_not_cancel
    (before : list event) (c : nat) (answer : settled Response) :
  let h := run path method before useAutoMutation in
  tasks h !! c = Some AwaitFetch →
  (∀ e, call_result answer = Rejected e → is_abort e = false) →
  let h' := step path method Unmount h in
  (∀ after, aborted (run path method after h') = ∅)
  ∧ tasks h' !! c = Some AwaitFetch
  ∧ updates (run path method (completes c answer) h')
    = (updates h' ++ [(c, reflected (call_result answer))])%list.
Proof.
  intros h Htask Hres h'.
  assert (aborted h' = ∅) as Hab.
  { subst h' h. by rewrite step_aborted_same, never_aborted. }
  split; [intros after; by rewrite run_aborted_same|]. split; [done|].
  apply (completion h' c answer); [done| |done].
  rewrite Hab. apply not_elem_of_empty.
Qed.







(** C9 (amended): when the request of a call of [mutate] fails with an
    [AbortError], while awaiting the response or while reading its body, the
    promise returned by that call resolves with [undefined]; the state is not
    set, and nothing that arrives later for that call has any effect. *)
Theorem C9_abort_resolves_with_undefined
    (h : instance) (ev : event) (c : nat) (err : js_error) :
  mutation_thrown ev h = Some (c, err) → is_abort err = true →
  let h' := step path method ev h in
  promises h' !! c = Some (Resolved VUndefined)
  ∧ state h' = state h
  ∧ updates h' = updates h
  ∧ (∀ answer, step path method (FetchSettled c answer) h' = h')
  ∧ step path method (BodyRead c) h' = h'.
Proof.
  intros Hthrown Habort.
  destruct ev as [body| |c0 answer|c0]; simpl in Hthrown |- *; [done..| |].
  - destruct (tasks h !! c0) as [[|res]|]; [|done..].
    destruct (fetch_outcome _ _) as [res|err0]; [done|].
    injection Hthrown as -> ->. unfold catch. rewrite Habort. simpl.
    rewrite lookup_insert_eq, lookup_delete_eq. done.
  - destruct (tasks h !! c0) as [[|res]|]; [done| |done].
    destruct (json_outcome _ _) as [v|err0]; [done|].
    injection Hthrown as -> ->. unfold catch. rewrite Habort. simpl.
    rewrite lookup_insert_eq, lookup_delete_eq. done.
Qed.

End MutationHook.

(** ** Further properties of the dispatcher *)

Section DispatcherFurther.
Context `{Platform}.
Import ServerClient.


(** X2: with a provider that answers at once, the [Authorization] header
    follows the token.  For [undefined] and for the empty string there is no
    header.  For a non-empty string [X] the value [Bearer X] goes through
    [Headers.set], which removes white space at its end and refuses it when
    what remains holds a NUL, a line feed or a carriage return: the header
    is the trimmed value, or the call sends nothing and rejects with a
    [TypeError]; the header is [Bearer X] as written when [X] holds none of
    these characters and does not end in white space.  A client configured
    without a provider sends no [Authorization] header. *)
Theorem X2_synchronous_token_header
    (base : string) (t : option string) (c : call) (net : Net) :
  let with_provider :=
    {| baseURL := base; getToken := Some (λ _, TokenNow t) |} in
  let without := {| baseURL := base; getToken := None |} in
  let result := run_async (dispatch (createServerClient with_provider) c) net in
  (t = None ∨ t = Some "" →
     ∃ sent : Request,
       result.2 = [sent] ∧ req_headers sent !! "Authorization" = None)
  ∧ (∀ X, t = Some X → X ≠ "" →
       let value := normalize_header_value ("Bearer " +:+ X) in
       (is_header_value value = true →
          ∃ sent : Request,
            result.2 = [sent]
            ∧ req_headers sent !! "Authorization" = Some value)
       ∧ (is_header_value value = false → result = (Rejected TypeError, []))
       ∧ (trim_end X = X → is_header_value X = true →
            value = "Bearer " +:+ X ∧ is_header_value value = true))
  ∧ (∃ sent : Request,
       (run_async (dispatch (createServerClient without) c) net).2 = [sent]
       ∧ req_headers sent !! "Authorization" = None).
Proof.
  intros with_provider without result. subst without.
  assert (∃ sent : Request,
            (run_async
               (dispatch
                  (createServerClient {| baseURL := base; getToken := None |})
                  c) net).2
            = [sent]
            ∧ req_headers sent !! "Authorization" = None) as Hwithout.
  { rewrite dispatch_request, request_run, no_provider_request.
    eexists. split; [done|]. simpl.
    destruct (truthy (call_body c)); by simplify_map_eq. }
  subst result. rewrite dispatch_request, request_run.
  rewrite (sync_token_header with_provider _ _ _ (λ _, TokenNow t) t)
    by done.
  split; [|split; [|done]].
  - intros [-> | ->]; cbn [String.eqb baseURL];
      by rewrite dispatch_request, request_run in Hwithout.
  - intros X -> HX value.
    destruct (String.eqb X "") eqn:Heq; [by apply String.eqb_eq in Heq|].
    unfold Headers_set. fold value. split; [|split].
    + intros ->. cbn [mbind settled_bind]. eexists. split; [done|]. simpl.
      destruct (truthy (call_body c)); by simplify_map_eq.
    + by intros ->.
    + intros Htrim Hvalue. subst value.
      destruct (bearer_as_written X) as [-> ?]; done.
Qed.

(** X3: [get] and [delete] never send a payload nor a [Content-Type]
    header, whatever the configuration: the one request that such a call
    sends has neither, and a call that sends no request sends nothing. *)
Theorem X3_get_and_delete_send_no_body
    (config : ServerClientConfig) (path : string) (net : Net) :
  let bare (method : string) (trace : list Request) :=
    match build_request config method path VUndefined with
    | Resolved sent =>
        trace = [sent]
        ∧ req_body sent = None
        ∧ req_headers sent !! "Content-Type" = None
    | Rejected _ => trace = []
    end in
  bare "GET" (run_async (get (createServerClient config) path) net).2
  ∧ bare "DELETE" (run_async (delete (createServerClient config) path) net).2.
Proof.
  intros bare. subst bare.
  split; cbn [get delete createServerClient]; rewrite request_run;
    (destruct (build_request _ _ _ _) as [sent|e] eqn:Hsent; [|done]);
    by apply build_request_inv in Hsent as (_ & _ & ? & ? & _).
Qed.

(** X4: a call resolves with [v] exactly when it sent its request and the
    network answered it with a response whose status is in 200-299 and whose
    body is the JSON text of [v]. *)
Theorem X4_resolves_iff_success_with_json
    (config : ServerClientConfig) (c : call) (net : Net) (v : value) :
  (run_async (dispatch (createServerClient config) c) net).1 = Resolved v
  ↔ ∃ sent response text,
      build_request config (call_method c) (call_path c) (call_body c)
        = Resolved sent
      ∧ net sent = Resolved response
      ∧ (200 ≤ res_status response < 300)%N
      ∧ res_body response = ReadText text
      ∧ JSON_parse text = Some v.
Proof.
  rewrite dispatch_request, request_run. split.
  - destruct (build_request _ _ _ _) as [sent|e] eqn:Hsent; [|done]. simpl.
    destruct (net sent) as [response|e] eqn:Hnet; [|done].
    destruct (ok response) eqn:Hok; [|done].
    unfold json. destruct (res_body response) as [text|e] eqn:Hbody; [|done].
    destruct (JSON_parse text) as [w|] eqn:Hparse; [|done].
    intros [= ->]. exists sent, response, text. by rewrite <- ok_range.
  - intros (sent & response & text & -> & -> & Hok%ok_range & Hbody & Hparse).
    simpl. unfold json. by rewrite Hok, Hbody, Hparse.
Qed.

(** X5: a failure of the transport is passed on as it is, after the one
    request and without a second attempt: when [fetch] rejects with [e] the
    call rejects with [e]; when the body of a response with a status in
    200-299 cannot be read, the call rejects with the error of the reading,
    and when it is not JSON, with the [SyntaxError] of the decoding. *)
Theorem X5_transport_failure_propagates
    (config : ServerClientConfig) (c : call) (net : Net) (sent : Request)
    (e : js_error) (response : Response) (text : string) :
  build_request config (call_method c) (call_path c) (call_body c)
    = Resolved sent →
  let result := run_async (dispatch (createServerClient config) c) net in
  (net sent = Rejected e → result = (Rejected e, [sent]))
  ∧ (net sent = Resolved response → (200 ≤ res_status response < 300)%N →
     (res_body response = ReadFailed e → result = (Rejected e, [sent]))
     ∧ (res_body response = ReadText text → JSON_parse text = None →
        result = (Rejected SyntaxError, [sent]))).
Proof.
  intros Hsent result. subst result.
  rewrite dispatch_request, request_run, Hsent. split.
  - by intros ->.
  - intros -> Hok%ok_range. rewrite Hok. unfold json.
    split; [by intros ->|]. by intros -> ->.
Qed.

(** X6: every status outside 200-299 makes the call fail, also one below
    200, and the error tells the statuses apart: two failed calls reject
    with the same error only if their responses had the same status. *)
Theorem X6_failure_identifies_status
    (config : ServerClientConfig) (c1 c2 : call) (net1 net2 : Net)
    (sent1 sent2 : Request) (r1 r2 : Response) :
  build_request config (call_method c1) (call_path c1) (call_body c1)
    = Resolved sent1 →
  build_request config (call_method c2) (call_path c2) (call_body c2)
    = Resolved sent2 →
  net1 sent1 = Resolved r1 →
  net2 sent2 = Resolved r2 →
  ¬ (200 ≤ res_status r1 < 300)%N → ¬ (200 ≤ res_status r2 < 300)%N →
  let outcome1 :=
    (run_async (dispatch (createServerClient config) c1) net1).1 in
  let outcome2 :=
    (run_async (dispatch (createServerClient config) c2) net2).1 in
  outcome1 = Rejected (Error ("Request failed: " +:+ pretty (res_status r1)))
  ∧ (outcome1 = outcome2 → res_status r1 = res_status r2).
Proof.
  intros Hsent1 Hsent2 Hnet1 Hnet2 Hno1 Hno2 outcome1 outcome2.
  subst outcome1 outcome2.
  rewrite !dispatch_request, !request_run, Hsent1, Hsent2. simpl.
  rewrite Hnet1, Hnet2.
  destruct (ok r1) eqn:Hok1; [by apply ok_range in Hok1|].
  destruct (ok r2) eqn:Hok2; [by apply ok_range in Hok2|].
  split; [done|]. intros [= Heq]. by apply (inj pretty).
Qed.

(** X7: [request] sets no header other than [Authorization] and
    [Content-Type]. *)
Theorem X7_only_two_headers
    (config : ServerClientConfig) (method path : string) (body : value)
    (sent : Request) (name value : string) :
  build_request config method path body = Resolved sent →
  req_headers sent !! name = Some value →
  name ∈ request_header_names.
Proof.
  intros (_ & _ & _ & _ & Hnames)%build_request_inv Hlook.
  unfold request_header_names. rewrite !elem_of_cons.
  destruct (Hnames name value Hlook); auto.
Qed.

End DispatcherFurther.

(** ** Further properties of the server-side helper and of the route *)

Section TrustedSide.
Context `{Platform}.

(** X8: [serverQuery] sends one [GET] without payload to [API_URL] followed
    by the path, and this request is the same whatever the [accessToken]
    cookie holds. *)
Theorem X8_serverQuery_request
    (env : Env) (path : string) (net : Net) (cookie : option string) :
  ∃ sent : Request,
    (run_async (serverQuery env path) net).2 = [sent]
    ∧ req_url sent = API_URL env +:+ path
    ∧ req_method sent = "GET"
    ∧ req_body sent = None
    ∧ (run_async
         (serverQuery {| API_URL := API_URL env; accessToken := cookie |} path)
         net).2 = [sent].
Proof.
  exists (trusted_request env "GET" path VUndefined).
  split; [apply (ServerClient_request_trace env)|].
  do 3 (split; [done|]).
  apply (ServerClient_request_trace
           {| API_URL := API_URL env; accessToken := cookie |}).
Qed.

Lemma bind_ret_outcome {A B} (m : Async A) (f : A → B) (net : Net) trace :
  ((m ≫= λ a, mret (f a)) net trace).1
  = match (m net trace).1 with
    | Resolved a => Resolved (f a)
    | Rejected e => Rejected e
    end.
Proof.
  unfold mbind, Async_bind, mret, Async_ret.
  by destruct (m net trace) as [[a|e] trace'].
Qed.

Lemma try_catch_ret_outcome {A} (m : Async A) (x : A) (net : Net) trace :
  (try_catch m (λ _, mret x) net trace).1
  = match (m net trace).1 with
    | Resolved a => Resolved a
    | Rejected _ => Resolved x
    end.
Proof.
  unfold try_catch, mret, Async_ret.
  by destruct (m net trace) as [[a|e] trace'].
Qed.

(** What a call of the client of the route comes to. *)
Lemma trusted_request_run (env : Env) (m p : string) (b : value) (net : Net) :
  ServerClient.request (trusted_config env) m p b net []
  = (match net (trusted_request env m p b) with
     | Resolved response =>
         if ok response then json response
         else Rejected
                (Error ("Request failed: " +:+ pretty (res_status response)))
     | Rejected e => Rejected e
     end, [trusted_request env m p b]).
Proof.
  pose proof (request_run (trusted_config env) m p b net) as Hrun.
  by rewrite trusted_request_built in Hrun.
Qed.

(** What the part of the handler behind the validations comes to. *)
Lemma forward_run (env : Env) (m p : string) (body : value) (net : Net) :
  m ∈ Proxy.ALLOWED_METHODS →
  let sent := trusted_request env m p (forwarded_body m body) in
  run_async (Proxy.forward env (VString m) p body) net
  = (Resolved
       match net sent with
       | Resolved response =>
           if ok response
           then match json response with
                | Resolved data => Proxy.NextResponse_json data 200
                | Rejected _ => request_failed_response
                end
           else request_failed_response
       | Rejected _ => request_failed_response
       end,
     [sent]).
Proof.
  intros Hm sent.
  rewrite (surjective_pairing (run_async _ _)).
  unfold Proxy.forward, run_async.
  rewrite try_catch_ret_trace, bind_ret_trace.
  rewrite try_catch_ret_outcome, bind_ret_outcome.
  assert (m = "GET" ∨ m = "POST" ∨ m = "PUT" ∨ m = "DELETE")
    as [-> | [-> | [-> | ->]]]
    by (unfold Proxy.ALLOWED_METHODS in Hm;
        rewrite !elem_of_cons, elem_of_nil in Hm; intuition congruence);
    simpl; fold (trusted_config env);
    rewrite trusted_request_run;
    subst sent; unfold forwarded_body; simpl;
    (destruct (net _) as [response|e]; [|done]);
    (destruct (ok response); [|done]); by destruct (json response).
Qed.

(** The handler reaches [forward] exactly on valid input. *)
Lemma POST_valid (env : Env) (payload : value) (m p : string) :
  get_prop payload "method" = VString m → m ∈ Proxy.ALLOWED_METHODS →
  get_prop payload "path" = VString p → startsWith p "/" = true →
  Proxy.POST env (Resolved payload)
  = Proxy.forward env (VString m) p (get_prop payload "body").
Proof.
  intros Hmethod Hm Hpath Hp. unfold Proxy.POST.
  rewrite !get_prop_nullish, Hmethod, Hpath, Hp.
  destruct (Proxy.includes Proxy.ALLOWED_METHODS (VString m)) eqn:Hinc; [done|].
  assert (Proxy.includes Proxy.ALLOWED_METHODS (VString m) = true);
    [|congruence].
  apply includes_allowed. by exists m.
Qed.

(** X9: the route never throws and never sends more than one request
    upstream: whatever it receives, also a body that is not JSON, and
    whatever the network does, the handler resolves with a response whose
    status is 200, 400 or 500. *)
Theorem X9_route_always_answers
    (env : Env) (req_json : settled value) (net : Net) :
  let result := run_async (Proxy.POST env req_json) net in
  ∃ response : Proxy.NextResponse,
    result.1 = Resolved response
    ∧ Proxy.status response ∈ [200; 400; 500]%N
    ∧ length result.2 ≤ 1.
Proof.
  intros result. subst result.
  assert (∀ message,
    ∃ response : Proxy.NextResponse,
      (run_async
         (mret (Proxy.NextResponse_json
                  (VObject [("error", VString message)]) 400)) net).1
      = Resolved response
      ∧ Proxy.status response ∈ [200; 400; 500]%N
      ∧ length
          (run_async
             (mret (Proxy.NextResponse_json
                      (VObject [("error", VString message)]) 400)) net).2
        ≤ 1) as Hrefuse.
  { intros message. eexists. split; [done|]. simpl.
    split; [rewrite !elem_of_cons; auto|lia]. }
  destruct req_json as [payload|e]; [|apply Hrefuse].
  unfold Proxy.POST. rewrite !get_prop_nullish.
  destruct (Proxy.includes Proxy.ALLOWED_METHODS (get_prop payload "method"))
    eqn:Hinc; cbn [negb]; [|apply Hrefuse].
  apply includes_allowed in Hinc as (m & Hmethod & Hm).
  destruct (get_prop payload "path") as [| | | |p| |]; try apply Hrefuse.
  destruct (startsWith p "/"); cbn [negb]; [|apply Hrefuse].
  rewrite Hmethod, forward_run by done. simpl.
  eexists. split; [done|]. split; [|lia].
  destruct (net _) as [response|e];
    [destruct (ok response); [destruct (json response)|]|];
    simpl; rewrite !elem_of_cons; auto.
Qed.

(** X10: on valid input the route sends one request upstream and answers
    200 with the decoded body of the response when the dispatch succeeds;
    every failure of the
    dispatch, a status outside 200-299, a failure of the network or a body
    that cannot be decoded, gives the same answer, 500 with
    [{error: "Request failed"}]: the upstream status and the error are not
    passed on. *)
Theorem X10_route_hides_upstream_failure
    (env : Env) (payload : value) (m p : string) (net : Net)
    (response : Response) (text : string) (data : value) (e : js_error) :
  get_prop payload "method" = VString m → m ∈ Proxy.ALLOWED_METHODS →
  get_prop payload "path" = VString p → startsWith p "/" = true →
  let sent :=
    trusted_request env m p (forwarded_body m (get_prop payload "body")) in
  let answer := (run_async (Proxy.POST env (Resolved payload)) net).1 in
  (run_async (Proxy.POST env (Resolved payload)) net).2 = [sent]
  ∧ (net sent = Resolved response → (200 ≤ res_status response < 300)%N →
   res_body response = ReadText text → JSON_parse text = Some data →
     answer = Resolved (Proxy.NextResponse_json data 200))
  ∧ (net sent = Resolved response → ¬ (200 ≤ res_status response < 300)%N →
     answer = Resolved request_failed_response)
  ∧ (net sent = Resolved response → json response = Rejected e →
     answer = Resolved request_failed_response)
  ∧ (net sent = Rejected e → answer = Resolved request_failed_response).
Proof.
  intros Hmethod Hm Hpath Hp sent answer. subst answer.
  rewrite (POST_valid env payload m p), forward_run by done.
  fold sent. simpl. repeat split.
  - intros -> Hok%ok_range Hbody Hparse.
    unfold json. by rewrite Hok, Hbody, Hparse.
  - intros -> Hno. destruct (ok response) eqn:Hok; [|done].
    by apply ok_range in Hok.
  - intros -> ->. by destruct (ok response).
  - by intros ->.
Qed.

(** X11: on valid input the route sends one request upstream, with the
    method and path it was given, and passes the body on for [POST] and
    [PUT] only: a [GET] or [DELETE] goes out without payload whatever body
    the input carries. *)
Theorem X11_route_forwards_body_to_post_and_put
    (env : Env) (payload : value) (m p : string) (net : Net) :
  get_prop payload "method" = VString m → m ∈ Proxy.ALLOWED_METHODS →
  get_prop payload "path" = VString p → startsWith p "/" = true →
  let body := get_prop payload "body" in
  ∃ sent : Request,
    (run_async (Proxy.POST env (Resolved payload)) net).2 = [sent]
    ∧ req_method sent = m
    ∧ req_url sent = API_URL env +:+ p
    ∧ (m = "GET" ∨ m = "DELETE" →
       req_body sent = None ∧ req_headers sent !! "Content-Type" = None)
    ∧ (m = "POST" ∨ m = "PUT" →
       req_body sent = if truthy body then JSON_stringify body else None).
Proof.
  intros Hmethod Hm Hpath Hp body.
  rewrite (POST_valid env payload m p), forward_run by done.
  eexists. split; [done|]. split; [done|]. split; [done|].
  split; intros [-> | ->]; by simplify_map_eq.
Qed.

End TrustedSide.


(** ** Further properties of the query hook *)

Section QueryFurther.
Context `{Platform}.
Import AutoQuery.

(** What a call of [setState] made by a settlement passes: one of the two
    final states, never a loading one. *)
Lemma update_shape (ev : event) (h : instance) (c : nat) (s : QueryState) :
  updates (step ev h) = (updates h ++ [(c, s)])%list →
  loading s = false ∧ is_Some (tasks h !! c).
Proof.
  assert (∀ l (x : nat * QueryState), l ≠ (l ++ [x])%list) as Hneq.
  { intros l x Heq. apply (f_equal length) in Heq.
    rewrite length_app in Heq. simpl in Heq. lia. }
  destruct ev as [path| |c0 answer|c0]; simpl.
  - destruct (mounted h); [|by intros ?%Hneq].
    destruct (String.eqb path (deps h)); by intros ?%Hneq.
  - destruct (mounted h); by intros ?%Hneq.
  - destruct (tasks h !! c0) as [[|res]|] eqn:Htask; [|by intros ?%Hneq..].
    destruct (fetch_outcome _ _) as [res|err]; [by intros ?%Hneq|].
    unfold catch. destruct (is_abort err); [by intros ?%Hneq|]. simpl.
    intros [_ [= <- <-]]%app_inj_tail. by rewrite Htask.
  - destruct (tasks h !! c0) as [[|res]|] eqn:Htask;
      [by intros ?%Hneq| |by intros ?%Hneq].
    destruct (json_outcome _ _) as [v|err]; simpl.
    + intros [_ [= <- <-]]%app_inj_tail. by rewrite Htask.
    + unfold catch. destruct (is_abort err); [by intros ?%Hneq|]. simpl.
      intros [_ [= <- <-]]%app_inj_tail. by rewrite Htask.
Qed.

(** X12: at any time at most one request of the hook is live: two pending
    requests whose controllers have not been aborted are the same request,
    the one of the latest activation. *)
Theorem X12_query_one_live_request
    (path0 : string) (evs : list event) (c d : nat) :
  let h := run evs (useAutoQuery path0) in
  is_Some (tasks h !! c) → c ∉ aborted h →
  is_Some (tasks h !! d) → d ∉ aborted h →
  c = d ∧ cleanup h = Some c.
Proof.
  intros h Hc Hcn Hd Hdn.
  assert (query_inv h) as Hinv by apply run_inv, useAutoQuery_inv.
  assert (cleanup h = Some c) as Hcc.
  { destruct (decide (cleanup h = Some c)); [done|].
    destruct Hcn. by apply Hinv. }
  assert (cleanup h = Some d) as Hcd.
  { destruct (decide (cleanup h = Some d)); [done|].
    destruct Hdn. by apply Hinv. }
  split; [congruence|done].
Qed.

(** Once unmounted, the state of the hook is never set again. *)
Lemma unmounted_frozen (after : list event) (h : instance) :
  query_inv h → mounted h = false →
  updates (run after h) = updates h ∧ state (run after h) = state h.
Proof.
  revert h. induction after as [|ev evs IH]; intros h Hinv Hun; [done|].
  change (run (ev :: evs) h) with (run evs (step ev h)).
  destruct (update_by_current ev h Hinv) as [[Hst Hupd]|(c & s & Hc & _)].
  - rewrite <- Hst, <- Hupd.
    apply IH; [by apply step_inv|by apply step_unmounted].
  - apply Hinv in Hun. congruence.
Qed.

(** X13: unmounting the query hook aborts what is in flight and freezes the
    state: after the unmount every pending request has an aborted
    controller, and no event that follows calls [setState] or changes the
    state. *)
Theorem X13_query_unmount_cancels
    (path0 : string) (before after : list event) :
  let h := run before (useAutoQuery path0) in
  mounted h = true →
  let h' := step Unmount h in
  (∀ c, is_Some (tasks h' !! c) → c ∈ aborted h')
  ∧ updates (run after h') = updates h'
  ∧ state (run after h') = state h'.
Proof.
  intros h Hm h'.
  assert (query_inv h') as Hinv by apply step_inv, run_inv, useAutoQuery_inv.
  assert (mounted h' = false) as Hun by (subst h'; simpl; by rewrite Hm).
  split; [|by apply unmounted_frozen].
  intros c Hc. apply Hinv; [done|].
  apply Hinv in Hun. congruence.
Qed.

(** X14: when the awaited [fetch] or the decoding of the body throws an
    exception that is not an abort, the hook goes to the error state: no
    data, the fixed message [Request failed], not loading.  Nothing of the
    exception itself is kept. *)
Theorem X14_query_failure_sets_error
    (h : instance) (ev : event) (err : js_error) :
  mounted h = true → query_thrown ev h = Some err → is_abort err = false →
  state (step ev h)
  = {| data := None; error := Some "Request failed"; loading := false |}.
Proof.
  intros Hm Hthrown Habort.
  destruct ev as [path| |c answer|c]; simpl in Hthrown |- *; [done..| |].
  - destruct (tasks h !! c) as [[|res]|]; [|done..].
    destruct (fetch_outcome _ _) as [res|err0]; [done|].
    injection Hthrown as ->. unfold catch. rewrite Habort. simpl.
    by rewrite Hm.
  - destruct (tasks h !! c) as [[|res]|]; [done| |done].
    destruct (json_outcome _ _) as [v|err0]; [done|].
    injection Hthrown as ->. unfold catch. rewrite Habort. simpl.
    by rewrite Hm.
Qed.

(** X15: an abort is swallowed: when the exception that reaches the [catch]
    block is an [AbortError], the state is left as it is and [setState] is
    not called. *)
Theorem X15_query_abort_is_silent
    (h : instance) (ev : event) (err : js_error) :
  query_thrown ev h = Some err → is_abort err = true →
  state (step ev h) = state h ∧ updates (step ev h) = updates h.
Proof.
  intros Hthrown Habort.
  destruct ev as [path| |c answer|c]; simpl in Hthrown |- *; [done..| |].
  - destruct (tasks h !! c) as [[|res]|]; [|done..].
    destruct (fetch_outcome _ _) as [res|err0]; [done|].
    injection Hthrown as ->. unfold catch. by rewrite Habort.
  - destruct (tasks h !! c) as [[|res]|]; [done| |done].
    destruct (json_outcome _ _) as [v|err0]; [done|].
    injection Hthrown as ->. unfold catch. by rewrite Habort.
Qed.

(** How an event moves the record of the requests. *)
Lemma step_sent (ev : event) (h : instance) :
  (sent (step ev h) = sent h ∧ fresh (step ev h) = fresh h
   ∧ deps (step ev h) = deps h
   ∧ (cleanup (step ev h) = cleanup h ∨ cleanup (step ev h) = None))
  ∨ (∃ p, sent (step ev h) = (sent h ++ [(fresh h, proxy_request p)])%list
          ∧ fresh (step ev h) = S (fresh h)
          ∧ deps (step ev h) = p
          ∧ cleanup (step ev h) = Some (fresh h)).
Proof.
  destruct ev as [path| |c answer|c].
  - simpl. destruct (mounted h); [|left; auto].
    destruct (String.eqb path (deps h)); [left; auto|].
    right. by exists path.
  - simpl. destruct (mounted h); left; auto.
  - destruct (settlement_frame (FetchSettled c answer) h)
      as (_ & -> & -> & _ & -> & ->); [eauto|]. left; auto.
  - destruct (settlement_frame (BodyRead c) h)
      as (_ & -> & -> & _ & -> & ->); [eauto|]. left; auto.
Qed.

Lemma useAutoQuery_log_inv (path : string) : query_log_inv (useAutoQuery path).
Proof.
  split; simpl; try done.
  - intros c r [= -> ->]%list_elem_of_singleton. eauto.
  - intros c [= <-]. by apply list_elem_of_singleton.
  - constructor.
Qed.

Lemma step_log_inv (ev : event) (h : instance) :
  query_inv h → query_log_inv h → query_log_inv (step ev h).
Proof.
  intros Hinv [Hctl Hreq Hcur Honce Hstate Hfinal].
  assert ((sent (step ev h)).*1 = seq 0 (fresh (step ev h))
          ∧ (∀ c r, (c, r) ∈ sent (step ev h) → ∃ p, r = proxy_request p)
          ∧ (∀ c, cleanup (step ev h) = Some c →
                  (c, proxy_request (deps (step ev h))) ∈ sent (step ev h)))
    as (Hctl' & Hreq' & Hcur').
  { destruct (step_sent ev h)
      as [(-> & -> & -> & Hc)|(p & -> & -> & -> & ->)].
    - split; [done|]. split; [done|].
      intros c Hcl. apply Hcur. destruct Hc; congruence.
    - split; [by rewrite fmap_app, Hctl, seq_S|]. split.
      + intros c r [Hin|[= -> ->]%list_elem_of_singleton]%elem_of_app; eauto.
      + intros c [= <-]. apply elem_of_app. right.
        by apply list_elem_of_singleton. }
  assert (NoDup (updates (step ev h)).*1
          ∧ state (step ev h)
            = match last (updates (step ev h)) with
              | Some u => u.2
              | None => {| data := None; error := None; loading := true |}
              end
          ∧ Forall (λ u, loading u.2 = false) (updates (step ev h)))
    as (Honce' & Hstate' & Hfinal').
  { destruct (update_by_current ev h Hinv)
      as [[-> ->]|(c & s & Hc & Hupd & ->)]; [done|].
    destruct (update_shape ev h c s Hupd) as [Hload Hpending].
    rewrite Hupd. split; [|split].
    - rewrite fmap_app. apply NoDup_app. split; [done|]. split.
      + intros c' [[c'' s'] [Heq Hin]]%list_elem_of_fmap Hc'.
        simpl in Heq, Hc'. apply list_elem_of_singleton in Hc'. subst c' c''.
        apply Hinv in Hin as [Hnone _]. rewrite Hnone in Hpending.
        by destruct Hpending.
      + apply NoDup_singleton.
    - by rewrite last_snoc.
    - apply Forall_app. split; [done|]. by apply Forall_singleton. }
  by split.
Qed.

Lemma run_log_inv (evs : list event) (h : instance) :
  query_inv h → query_log_inv h → query_log_inv (run evs h).
Proof.
  revert h. induction evs as [|ev evs IH]; intros h Hinv Hlog; [done|].
  apply IH; [by apply step_inv|by apply step_log_inv].
Qed.


(** X17: a request sets the state at most once: no controller appears twice
    among the calls of [setState]. *)
Theorem X17_query_one_update_per_request
    (path0 : string) (evs : list event) :
  NoDup (updates (run evs (useAutoQuery path0))).*1.
Proof.
  apply run_log_inv; [apply useAutoQuery_inv|apply useAutoQuery_log_inv].
Qed.

(** X18: the hook reports [loading] until the first completion of a request
    and never again: with no call of [setState] made yet the state is the
    initial loading one, and after the first call [loading] is false for
    good, also while the request of a later activation is in flight. *)
Theorem X18_query_loading_only_at_first
    (path0 : string) (evs : list event) :
  let h := run evs (useAutoQuery path0) in
  match updates h with
  | [] => state h = {| data := None; error := None; loading := true |}
  | _ :: _ => loading (state h) = false
  end.
Proof.
  intros h.
  assert (query_log_inv h) as [_ _ _ _ Hstate Hfinal]
    by (apply run_log_inv; [apply useAutoQuery_inv|apply useAutoQuery_log_inv]).
  destruct (updates h) as [|u us] eqn:Hupd; [done|].
  rewrite Hstate.
  destruct (last (u :: us)) as [u'|] eqn:Hlast.
  - apply last_Some_elem_of in Hlast.
    by apply (proj1 (Forall_forall _ _) Hfinal).
  - by apply last_None in Hlast.
Qed.

End QueryFurther.

(** ** Further properties of the mutation hook *)

Section MutationFurther.
Context `{Platform}.
Variable path : string.
Variable method : AutoMutation.verb.
Import AutoMutation.

Lemma useAutoMutation_inv : mutation_inv path method useAutoMutation.
Proof.
  split; simpl.
  - intros c [[t Ht]|[p Hp]]; by rewrite lookup_empty in *.
  - lia.
  - done.
  - intros c r Hin. by apply elem_of_nil in Hin.
Qed.

(** The settlement of a promise of the hook moves one call from in flight
    to in flight or settled, and touches no other and no record of the
    requests. *)
Lemma settlement_moves_one (ev : event) (h : instance) :
  is_Mutate ev = false →
  fresh (step path method ev h) = fresh h
  ∧ sent (step path method ev h) = sent h
  ∧ (tasks (step path method ev h) = tasks h
     ∧ promises (step path method ev h) = promises h
     ∨ ∃ c, is_Some (tasks h !! c)
         ∧ ((∃ t, tasks (step path method ev h) = <[c := t]> (tasks h))
            ∧ promises (step path method ev h) = promises h
            ∨ tasks (step path method ev h) = base.delete c (tasks h)
              ∧ ∃ p, promises (step path method ev h)
                     = <[c := p]> (promises h))).
Proof.
  destruct ev as [body| |c answer|c]; [done| | |]; intros _; simpl.
  - auto.
  - destruct (tasks h !! c) as [[|res]|] eqn:Htask; [|auto..].
    destruct (fetch_outcome _ _) as [res|err]; simpl.
    + split; [done|]. split; [done|]. right. exists c.
      rewrite Htask. eauto 6.
    + unfold catch. destruct (is_abort err); simpl;
        (split; [done|]); (split; [done|]); right; exists c;
        rewrite Htask; eauto 8.
  - destruct (tasks h !! c) as [[|res]|] eqn:Htask; [auto| |auto].
    destruct (json_outcome _ _) as [v|err]; simpl.
    + split; [done|]. split; [done|]. right. exists c.
      rewrite Htask. eauto 8.
    + unfold catch. destruct (is_abort err); simpl;
        (split; [done|]); (split; [done|]); right; exists c;
        rewrite Htask; eauto 8.
Qed.

Lemma step_mutation_inv (ev : event) (h : instance) :
  mutation_inv path method h → mutation_inv path method (step path method ev h).
Proof.
  intros [Hknown Hpart Hctl Hreq].
  destruct (is_Mutate ev) eqn:Hev.
  - destruct ev as [body| | |]; try done. split; simpl.
    + intros c [[t Ht]|Hp].
      * apply lookup_insert_Some in Ht as [[<- _]|[_ Ht]]; [lia|].
        assert (c < fresh h) by eauto. lia.
      * assert (c < fresh h) by eauto. lia.
    + intros c Hc. destruct (decide (c = fresh h)) as [->|Hne].
      * left. rewrite lookup_insert_eq. split; [eauto|].
        destruct (promises h !! fresh h) eqn:Hp; [|done].
        assert (fresh h < fresh h) by eauto. lia.
      * rewrite lookup_insert_ne by done. apply Hpart. lia.
    + rewrite fmap_app, Hctl. symmetry. apply (seq_S (fresh h) 0).
    + intros c r [Hin|[= -> ->]%list_elem_of_singleton]%elem_of_app; eauto.
  - destruct (settlement_moves_one ev h Hev) as (Hfresh & Hsent & Hmove).
    split; rewrite ?Hfresh, ?Hsent; [| |done|done].
    + intros c Hc. apply Hknown.
      destruct Hmove as [[Ht Hp]|(c' & Hc' & [[[t Ht] Hp]|[Ht [p Hp]]])];
        rewrite Ht, Hp in Hc; [done| |].
      * destruct Hc as [[t' Ht']|Hc]; [|by right].
        apply lookup_insert_Some in Ht' as [[<- _]|[_ Ht']]; eauto.
      * destruct Hc as [[t' Ht']|[p' Hp']].
        -- apply lookup_delete_Some in Ht' as [_ Ht']. eauto.
        -- apply lookup_insert_Some in Hp' as [[<- _]|[_ Hp']]; eauto.
    + intros c Hc. specialize (Hpart c Hc).
      destruct Hmove as [[Ht Hp]|(c' & Hc' & [[[t Ht] Hp]|[Ht [p Hp]]])];
        rewrite Ht, Hp; [done| |].
      * destruct (decide (c' = c)) as [->|Hne].
        -- left. rewrite lookup_insert_eq. split; [eauto|].
           destruct Hpart as [[_ ?]|[Hnone _]]; [done|].
           rewrite Hnone in Hc'. by destruct Hc'.
        -- by rewrite lookup_insert_ne.
      * destruct (decide (c' = c)) as [->|Hne].
        -- right. rewrite lookup_delete_eq, lookup_insert_eq. eauto.
        -- by rewrite lookup_delete_ne, lookup_insert_ne.
Qed.

Lemma run_mutation_inv (evs : list event) (h : instance) :
  mutation_inv path method h → mutation_inv path method (run path method evs h).
Proof.
  revert h. induction evs as [|ev evs IH]; intros h Hinv; [done|].
  apply IH. by apply step_mutation_inv.
Qed.

(** X19: the mutation hook does not look at the status of the response
    either: when the request of a call is answered by a response whose body
    parses as JSON, whatever its status, the state goes to success with the
    parsed body in [data] and the promise of the call resolves with it. *)
Theorem X19_mutation_ignores_status
    (h : instance) (c : nat) (res : Response) (text : string) (v : value) :
  mounted h = true → tasks h !! c = Some AwaitFetch → c ∉ aborted h →
  res_body res = ReadText text → JSON_parse text = Some v →
  let h' := run path method (completes c (Resolved res)) h in
  state h' = {| data := Some v; error := None; loading := false |}
  ∧ promises h' !! c = Some (Resolved v).
Proof.
  intros Hm Htask Hab Hbody Hparse h'.
  assert (call_result (Resolved res) = Resolved v) as Hres.
  { simpl. unfold json. by rewrite Hbody, Hparse. }
  destruct (completion path method h c (Resolved res))
    as (_ & Hstate & Hpromises & _); [done|done|by rewrite Hres|].
  fold h' in Hstate, Hpromises.
  rewrite Hstate, Hpromises, Hm, Hres, lookup_insert_eq. done.
Qed.

(** X20: when the request of a call fails with an exception that is not an
    abort, the promise of the call rejects with that very exception, while
    the state keeps only the fixed message [Request failed]. *)
Theorem X20_mutation_failure_rejects_with_cause
    (h : instance) (ev : event) (c : nat) (err : js_error) :
  mutation_thrown ev h = Some (c, err) → is_abort err = false →
  let h' := step path method ev h in
  promises h' !! c = Some (Rejected err)
  ∧ updates h' = (updates h ++ [(c, mutation_failed)])%list
  ∧ (mounted h = true → state h' = mutation_failed).
Proof.
  intros Hthrown Habort.
  destruct ev as [body| |c0 answer|c0]; simpl in Hthrown |- *; [done..| |].
  - destruct (tasks h !! c0) as [[|res]|]; [|done..].
    destruct (fetch_outcome _ _) as [res|err0]; [done|].
    injection Hthrown as -> ->. unfold catch. rewrite Habort. simpl.
    rewrite lookup_insert_eq. split; [done|]. split; [done|]. by intros ->.
  - destruct (tasks h !! c0) as [[|res]|]; [done| |done].
    destruct (json_outcome _ _) as [v|err0]; [done|].
    injection Hthrown as -> ->. unfold catch. rewrite Habort. simpl.
    rewrite lookup_insert_eq. split; [done|]. split; [done|]. by intros ->.
Qed.



(** X22: no call is lost: each of the calls made so far is either in
    flight, its promise pending, or finished, its promise settled, and
    never both. *)
Theorem X22_mutation_call_in_flight_or_settled
    (evs : list event) (c : nat) :
  let h := run path method evs useAutoMutation in
  c < fresh h →
  (is_Some (tasks h !! c) ∧ promises h !! c = None)
  ∨ (tasks h !! c = None ∧ is_Some (promises h !! c)).
Proof.
  intros h. apply run_mutation_inv, useAutoMutation_inv.
Qed.

End MutationFurther.

(** ** From the hooks to the route *)

Section HooksToRoute.
Context `{Platform}.

Lemma read_json_carried (request : Request) (message : value) :
  req_body request = JSON_stringify message → carried message →
  ∃ parsed, read_json request = Resolved parsed
            ∧ ∀ k, get_prop parsed k = get_prop message k.
Proof.
  intros Hbody (text & parsed & Htext & Hparse & Hprops).
  exists parsed. split; [|done].
  unfold read_json. by rewrite Hbody, Htext, Hparse.
Qed.

(** X23: what becomes of the request of the query hook at the route.  For a
    path that starts with a slash the route sends one [GET] without payload
    to [API_URL] followed by the path; for any other path it answers 400
    with [{error: "Invalid path"}] and sends nothing upstream. *)
Theorem X23_query_request_at_the_route
    (env : Env) (path : string) (net : Net) :
  carried (query_message path) →
  let result :=
    run_async (Proxy.POST env (read_json (AutoQuery.proxy_request path))) net in
  if startsWith path "/"
  then result.2 = [trusted_request env "GET" path VUndefined]
  else result
       = (Resolved (Proxy.NextResponse_json
                      (VObject [("error", VString "Invalid path")]) 400), []).
Proof.
  intros Hcarried result.
  destruct (read_json_carried (AutoQuery.proxy_request path)
              (query_message path) eq_refl Hcarried)
    as (parsed & Hread & Hprops).
  subst result. rewrite Hread.
  destruct (startsWith path "/") eqn:Hp.
  - rewrite (POST_valid env parsed "GET" path), forward_run;
      rewrite ?Hprops; try done.
    all: unfold Proxy.ALLOWED_METHODS; rewrite !elem_of_cons; auto.
  - unfold Proxy.POST. rewrite !get_prop_nullish, !Hprops.
    change (get_prop (query_message path) "method") with (VString "GET").
    change (get_prop (query_message path) "path") with (VString path).
    change (Proxy.includes Proxy.ALLOWED_METHODS (VString "GET")) with true.
    cbn [negb]. by rewrite Hp.
Qed.

(** X24: what becomes of the request of the mutation hook at the route.
    Each of the three methods of the hook passes the validation of the
    method; for a path that starts with a slash the route sends one request
    upstream with that method, and the body of a [POST] or [PUT] goes with
    it when it is truthy, while the body given to a [DELETE] is dropped. *)
Theorem X24_mutation_request_at_the_route
    (env : Env) (path : string) (method : AutoMutation.verb) (body : value)
    (net : Net) :
  carried (mutation_message path method body) →
  startsWith path "/" = true →
  let request := AutoMutation.proxy_request path method body in
  ∃ sent : Request,
    (run_async (Proxy.POST env (read_json request)) net).2 = [sent]
    ∧ req_url sent = API_URL env +:+ path
    ∧ req_method sent = AutoMutation.verb_name method
    ∧ req_body sent
      = match method with
        | AutoMutation.DELETE => None
        | _ => if truthy body then JSON_stringify body else None
        end.
Proof.
  intros Hcarried Hp request.
  destruct (read_json_carried request (mutation_message path method body)
              eq_refl Hcarried)
    as (parsed & Hread & Hprops).
  rewrite Hread.
  rewrite (POST_valid env parsed (AutoMutation.verb_name method) path),
    forward_run; rewrite ?Hprops; try done;
    try (unfold Proxy.ALLOWED_METHODS; rewrite !elem_of_cons;
         destruct method; simpl; by auto).
  eexists. split; [done|]. split; [done|]. split; [done|].
  by destruct method.
Qed.

End HooksToRoute.
(** ** Runs on the reference platform *)

#[local] Existing Instance Reference.platform.

Lemma C5_status_decides_outcome_witness :
  let client := ServerClient.createServerClient Scenario.config in
  (run_async (dispatch client (CallGet "/todos/7")) Scenario.upstream).1
    = Resolved Scenario.todo
  ∧ (run_async (dispatch client (CallGet "/missing")) Scenario.upstream).1
    = Rejected (Error "Request failed: 404").
Proof.
  split.
  - edestruct (C5_status_decides_outcome Scenario.config (CallGet "/todos/7")
                 Scenario.upstream) as [Hok _].
    + vm_compute. reflexivity.
    + vm_compute. reflexivity.
    + destruct (Hok ltac:(simpl; lia)) as [_ Hdecoded].
      apply (Hdecoded _ _ eq_refl). vm_compute. reflexivity.
  - edestruct (C5_status_decides_outcome Scenario.config (CallGet "/missing")
                 Scenario.upstream) as [_ Hfail].
    + vm_compute. reflexivity.
    + vm_compute. reflexivity.
    + apply (Hfail ltac:(simpl; lia)).
Defined.

(** C7, as stated, fails on a body that is defined but falsy: [post(path, 0)]
    sends a request without payload and without content type. *)
Lemma C7_falsy_body_not_sent :
  VNumber 0 ≠ VUndefined
  ∧ ∃ sent : Request,
      (run_async
         (dispatch (ServerClient.createServerClient Scenario.config)
            (CallPost "/counter" (VNumber 0)))
         Scenario.upstream).2 = [sent]
      ∧ req_headers sent !! "Content-Type" = None
      ∧ req_body sent = None
      ∧ ¬ carries_json_body sent (VNumber 0).
Proof.
  split; [done|].
  eexists. split; [vm_compute; reflexivity|].
  split; [by vm_compute|]. split; [done|].
  intros [Hct _]. vm_compute in Hct. discriminate.
Qed.

Lemma C7_truthy_body_is_sent_witness :
  let client := ServerClient.createServerClient Scenario.config in
  truthy Scenario.todo = true
  ∧ JSON_stringify Scenario.todo ≫= JSON_parse = Some Scenario.todo
  ∧ truthy (VString "") = false
  ∧ (∃ sent : Request,
       (run_async (dispatch client (CallPost "/todos" Scenario.todo))
          Scenario.upstream).2 = [sent]
       ∧ carries_json_body sent Scenario.todo)
  ∧ (∃ sent : Request,
       (run_async (dispatch client (CallPut "/title" (VString "")))
          Scenario.upstream).2 = [sent]
       ∧ req_body sent = None
       ∧ req_headers sent !! "Content-Type" = None)
  ∧ (∃ sent : Request,
       (run_async (dispatch client (CallDelete "/todos/7"))
          Scenario.upstream).2 = [sent]
       ∧ req_body sent = None
       ∧ req_headers sent !! "Content-Type" = None).
Proof.
  intros client. subst client.
  split; [reflexivity|]. split; [vm_compute; reflexivity|].
  split; [reflexivity|]. split; [|split].
  - edestruct (C7_truthy_body_is_sent Scenario.config "/todos" Scenario.todo
                 Scenario.upstream (CallPost "/todos" Scenario.todo))
      as (Htrace & Hbody & _).
    + vm_compute. reflexivity.
    + eexists. split; [exact Htrace|].
      apply Hbody; [left; reflexivity|reflexivity|vm_compute; reflexivity].
  - edestruct (C7_truthy_body_is_sent Scenario.config "/title" (VString "")
                 Scenario.upstream (CallPut "/title" (VString "")))
      as (Htrace & Hbody & _).
    + vm_compute. reflexivity.
    + eexists. split; [exact Htrace|].
      apply Hbody; [right; reflexivity|reflexivity].
  - edestruct (C7_truthy_body_is_sent Scenario.config "/todos/7" VUndefined
                 Scenario.upstream (CallDelete "/todos/7"))
      as (Htrace & _ & Hdelete).
    + vm_compute. reflexivity.
    + eexists. split; [exact Htrace|]. apply Hdelete. reflexivity.
Defined.

Lemma C6_proxy_validates_before_dispatch_witness :
  refused (run_async
             (Proxy.POST Scenario.env
                (Resolved (VObject [("method", VString "PATCH");
                                    ("path", VString "/x")])))
             Scenario.upstream)
  ∧ refused (run_async
               (Proxy.POST Scenario.env
                  (Resolved (VObject [("method", VString "GET");
                                      ("path", VString "x")])))
               Scenario.upstream)
  ∧ dispatched Scenario.env
      (run_async
         (Proxy.POST Scenario.env
            (Resolved (VObject [("method", VString "GET");
                                ("path", VString "/x")])))
         Scenario.upstream)
      "GET" "/x".
Proof.
  split; [|split].
  - apply (C6_proxy_validates_before_dispatch Scenario.env
             (VObject [("method", VString "PATCH"); ("path", VString "/x")])
             Scenario.upstream).
    left. intros (m & [= <-] & Hm).
    rewrite !elem_of_cons, elem_of_nil in Hm. intuition discriminate.
  - apply (C6_proxy_validates_before_dispatch Scenario.env
             (VObject [("method", VString "GET"); ("path", VString "x")])
             Scenario.upstream).
    right. intros (rest & [=]).
  - destruct (C6_proxy_validates_before_dispatch Scenario.env
                (VObject [("method", VString "GET"); ("path", VString "/x")])
                Scenario.upstream) as [_ Hdispatch].
    destruct Hdispatch as (m & p & [= <-] & [= <-] & Hsent).
    + exists "GET". split; [reflexivity|].
      rewrite !elem_of_cons. by left.
    + by exists "x".
    + exact Hsent.
Defined.

Lemma C2_superseded_request_never_sets_state_witness :
  let h := AutoQuery.useAutoQuery "/todos/7" in
  let h' :=
    AutoQuery.run
      [AutoQuery.FetchSettled 1 (Scenario.respond 200 Scenario.other_todo);
       AutoQuery.BodyRead 1;
       AutoQuery.FetchSettled 0 (Scenario.respond 200 Scenario.todo);
       AutoQuery.BodyRead 0]
      (AutoQuery.step (AutoQuery.Render "/todos/8") h) in
  "/todos/7" ≠ "/todos/8"
  ∧ AutoQuery.tasks h !! 0 = Some AwaitFetch
  ∧ (∀ s, (0, s) ∉ AutoQuery.updates h')
  ∧ AutoQuery.data (AutoQuery.state h') = Some Scenario.other_todo.
Proof.
  intros h h'. split; [discriminate|]. split; [reflexivity|].
  split; [|vm_compute; reflexivity].
  apply (C2_superseded_request_never_sets_state "/todos/7" []
           [AutoQuery.FetchSettled 1 (Scenario.respond 200 Scenario.other_todo);
            AutoQuery.BodyRead 1;
            AutoQuery.FetchSettled 0 (Scenario.respond 200 Scenario.todo);
            AutoQuery.BodyRead 0]
           "/todos/7" "/todos/8" 0).
  - reflexivity.
  - reflexivity.
  - reflexivity.
  - eexists; reflexivity.
  - discriminate.
Defined.

Lemma C10_query_ignores_status_witness :
  let h := AutoQuery.useAutoQuery "/todos" in
  let answer := Scenario.respond 500 Scenario.proxy_failure in
  AutoQuery.state
    (AutoQuery.run [AutoQuery.FetchSettled 0 answer; AutoQuery.BodyRead 0] h)
  = {| AutoQuery.data := Some Scenario.proxy_failure;
       AutoQuery.error := None;
       AutoQuery.loading := false |}
  ∧ ∃ err,
      query_thrown
        (AutoQuery.FetchSettled 0 (Rejected Scenario.network_error)) h
      = Some err
      ∧ is_abort err = false.
Proof.
  intros h answer. split.
  - apply (C10_query_ignores_status h 0
             {| res_status := 500;
                res_body := ReadText (Reference.write Scenario.proxy_failure) |}
             (Reference.write Scenario.proxy_failure) Scenario.proxy_failure
             AutoQuery.Unmount 0 (AutoQuery.state h)).
    + reflexivity.
    + reflexivity.
    + vm_compute. discriminate.
    + reflexivity.
    + vm_compute. reflexivity.
  - apply (C10_query_ignores_status h 0
             {| res_status := 500; res_body := ReadText "" |} "" VNull
             (AutoQuery.FetchSettled 0 (Rejected Scenario.network_error)) 0
             {| AutoQuery.data := None;
                AutoQuery.error := Some "Request failed";
                AutoQuery.loading := false |}).
    + reflexivity.
    + discriminate.
Defined.

Lemma C4_path_change_keeps_state_witness :
  let h := AutoQuery.run
             [AutoQuery.FetchSettled 0 (Scenario.respond 200 Scenario.todo);
              AutoQuery.BodyRead 0]
             (AutoQuery.useAutoQuery "/todos/7") in
  let h' := AutoQuery.step (AutoQuery.Render "/todos/8") h in
  AutoQuery.mounted h = true
  ∧ "/todos/8" ≠ AutoQuery.deps h
  ∧ AutoQuery.state h'
    = {| AutoQuery.data := Some Scenario.todo;
         AutoQuery.error := None;
         AutoQuery.loading := false |}
  ∧ AutoQuery.updates h' = AutoQuery.updates h
  ∧ AutoQuery.sent h'
    = [(0, AutoQuery.proxy_request "/todos/7");
       (1, AutoQuery.proxy_request "/todos/8")].
Proof.
  intros h h'. split; [reflexivity|]. split; [discriminate|].
  destruct (C4_path_change_keeps_state h "/todos/8")
    as (Hstate & Hupdates & Hsent).
  - reflexivity.
  - discriminate.
  - fold h' in Hstate, Hupdates, Hsent.
    rewrite Hstate, Hsent. split; [vm_compute; reflexivity|].
    split; [exact Hupdates|reflexivity].
Defined.

Lemma C8_mutation_unmount_does_not_cancel_witness :
  let h := AutoMutation.run "/todos" AutoMutation.POST
             [AutoMutation.Mutate Scenario.todo] AutoMutation.useAutoMutation in
  let h' :=
    AutoMutation.step "/todos" AutoMutation.POST AutoMutation.Unmount h in
  let late := completes 0 (Scenario.respond 200 Scenario.todo) in
  let h'' := AutoMutation.run "/todos" AutoMutation.POST late h' in
  AutoMutation.tasks h !! 0 = Some AwaitFetch
  ∧ AutoMutation.aborted h'' = ∅
  ∧ AutoMutation.updates h''
    = (AutoMutation.updates h'
       ++ [(0, reflected (Resolved Scenario.todo))])%list.
Proof.
  intros h h' late h''. split; [reflexivity|].
  destruct (C8_mutation_unmount_does_not_cancel "/todos" AutoMutation.POST
              [AutoMutation.Mutate Scenario.todo] 0
              (Scenario.respond 200 Scenario.todo))
    as (Haborted & _ & Hupdates).
  - reflexivity.
  - intros e He. vm_compute in He. discriminate.
  - split; [exact (Haborted late)|]. etrans; [exact Hupdates|].
    vm_compute. reflexivity.
Defined.



(** C9, as stated, fails: the promise of a call whose request is aborted
    does settle; it resolves with [undefined]. *)
Lemma C9_aborted_call_resolves :
  let h := AutoMutation.run "/todos" AutoMutation.POST
             [AutoMutation.Mutate Scenario.todo;
              AutoMutation.Unmount;
              AutoMutation.FetchSettled 0 (Rejected AbortError)]
             AutoMutation.useAutoMutation in
  AutoMutation.promises h !! 0 = Some (Resolved VUndefined)
  ∧ AutoMutation.promises h !! 0 ≠ None.
Proof.
  intros h.
  assert (AutoMutation.promises h !! 0 = Some (Resolved VUndefined)) as Hp
    by (vm_compute; reflexivity).
  split; [exact Hp|]. rewrite Hp. discriminate.
Qed.

Lemma C9_abort_resolves_with_undefined_witness :
  let h := AutoMutation.run "/todos" AutoMutation.POST
             [AutoMutation.Mutate Scenario.todo] AutoMutation.useAutoMutation in
  let ev := AutoMutation.FetchSettled 0 (Rejected AbortError) in
  let h' := AutoMutation.step "/todos" AutoMutation.POST ev h in
  mutation_thrown ev h = Some (0, AbortError)
  ∧ is_abort AbortError = true
  ∧ AutoMutation.promises h' !! 0 = Some (Resolved VUndefined)
  ∧ AutoMutation.state h'
    = {| AutoMutation.data := None; AutoMutation.error := None;
         AutoMutation.loading := true |}
  ∧ AutoMutation.updates h' = AutoMutation.updates h.
Proof.
  intros h ev h'. split; [reflexivity|]. split; [reflexivity|].
  destruct (C9_abort_resolves_with_undefined "/todos" AutoMutation.POST
              h ev 0 AbortError)
    as (Hpromise & Hstate & Hupdates & _).
  - reflexivity.
  - reflexivity.
  - split; [exact Hpromise|]. split; [|exact Hupdates].
    etrans; [exact Hstate|]. reflexivity.
Defined.

(** ** Runs of the further properties *)

Lemma X2_synchronous_token_header_witness :
  let client (X : string) :=
    ServerClient.createServerClient
      {| ServerClient.baseURL := "https://api.example";
         ServerClient.getToken :=
           Some (λ _, ServerClient.TokenNow (Some X)) |} in
  let line_feed := String "010"%char EmptyString in
  (∃ sent : Request,
     (run_async (dispatch (client "s3cret ") (CallGet "/todos")) Cases.offline).2
     = [sent]
     ∧ req_headers sent !! "Authorization" = Some "Bearer s3cret")
  ∧ (∃ sent : Request,
       (run_async (dispatch (client " ") (CallGet "/todos")) Cases.offline).2
       = [sent]
       ∧ req_headers sent !! "Authorization" = Some "Bearer")
  ∧ run_async
      (dispatch (client ("s3" +:+ line_feed +:+ "cret")) (CallGet "/todos"))
      Cases.offline
    = (Rejected TypeError, []).
Proof.
  intros client line_feed. split; [|split].
  - destruct (X2_synchronous_token_header "https://api.example"
                (Some "s3cret ") (CallGet "/todos") Cases.offline)
      as (_ & Hsome & _).
    destruct (Hsome "s3cret " eq_refl ltac:(discriminate)) as (Hset & _).
    apply Hset. reflexivity.
  - destruct (X2_synchronous_token_header "https://api.example"
                (Some " ") (CallGet "/todos") Cases.offline)
      as (_ & Hsome & _).
    destruct (Hsome " " eq_refl ltac:(discriminate)) as (Hset & _).
    apply Hset. reflexivity.
  - destruct (X2_synchronous_token_header "https://api.example"
                (Some ("s3" +:+ line_feed +:+ "cret")) (CallGet "/todos")
                Cases.offline)
      as (_ & Hsome & _).
    destruct (Hsome ("s3" +:+ line_feed +:+ "cret") eq_refl
                ltac:(discriminate)) as (_ & Hrefused & _).
    apply Hrefused. reflexivity.
Defined.

Lemma X4_resolves_iff_success_with_json_witness :
  (run_async
     (dispatch (ServerClient.createServerClient Scenario.config)
        (CallGet "/todos/7"))
     Scenario.upstream).1
  = Resolved Scenario.todo.
Proof.
  apply (X4_resolves_iff_success_with_json Scenario.config
           (CallGet "/todos/7") Scenario.upstream Scenario.todo).
  eexists _,
         {| res_status := 200;
            res_body := ReadText (Reference.write Scenario.todo) |},
         (Reference.write Scenario.todo).
  split; [vm_compute; reflexivity|].
  split; [vm_compute; reflexivity|]. split; [simpl; lia|].
  split; [reflexivity|].
  vm_compute. reflexivity.
Defined.

Lemma X5_transport_failure_propagates_witness :
  ∃ sent : Request,
    Cases.offline sent = Rejected Scenario.network_error
    ∧ run_async
        (dispatch (ServerClient.createServerClient Scenario.config)
           (CallPost "/todos" Scenario.todo))
        Cases.offline
      = (Rejected Scenario.network_error, [sent]).
Proof.
  eexists. split; [reflexivity|].
  eapply (proj1
            (X5_transport_failure_propagates Scenario.config
               (CallPost "/todos" Scenario.todo) Cases.offline _
               Scenario.network_error
               {| res_status := 0; res_body := ReadText "" |} ""
               ltac:(vm_compute; reflexivity))).
  reflexivity.
Defined.

Lemma X6_failure_identifies_status_witness :
  (run_async
     (dispatch (ServerClient.createServerClient Scenario.config)
        (CallGet "/missing"))
     Scenario.upstream).1
  = Rejected (Error "Request failed: 404").
Proof.
  eapply (X6_failure_identifies_status Scenario.config
            (CallGet "/missing") (CallGet "/missing")
            Scenario.upstream Scenario.upstream _ _
            {| res_status := 404;
               res_body :=
                 ReadText
                   (Reference.write
                      (VObject [("message", VString "Not Found")])) |}
            {| res_status := 404;
               res_body :=
                 ReadText
                   (Reference.write
                      (VObject [("message", VString "Not Found")])) |}).
  - vm_compute. reflexivity.
  - vm_compute. reflexivity.
  - vm_compute. reflexivity.
  - vm_compute. reflexivity.
  - simpl. lia.
  - simpl. lia.
Defined.

Lemma X7_only_two_headers_witness :
  ∃ sent : Request,
    ServerClient.build_request Scenario.config "POST" "/todos" Scenario.todo
    = Resolved sent
    ∧ req_headers sent !! "Authorization" = Some "Bearer s3cret"
    ∧ "Authorization" ∈ request_header_names.
Proof.
  eexists. split; [vm_compute; reflexivity|].
  split; [reflexivity|].
  eapply (X7_only_two_headers Scenario.config "POST" "/todos" Scenario.todo
            _ "Authorization" "Bearer s3cret").
  - vm_compute. reflexivity.
  - reflexivity.
Defined.

Lemma X10_route_hides_upstream_failure_witness :
  (run_async (Proxy.POST Scenario.env (Resolved Cases.get_missing))
     Scenario.upstream).1
  = Resolved request_failed_response.
Proof.
  destruct (X10_route_hides_upstream_failure Scenario.env Cases.get_missing
              "GET" "/missing" Scenario.upstream
              {| res_status := 404;
                 res_body :=
                   ReadText
                     (Reference.write
                        (VObject [("message", VString "Not Found")])) |}
              "" VNull Scenario.network_error)
    as (_ & _ & Hfailure & _).
  - reflexivity.
  - unfold Proxy.ALLOWED_METHODS. rewrite !elem_of_cons. left. reflexivity.
  - reflexivity.
  - reflexivity.
  - apply Hfailure; [reflexivity|simpl; lia].
Defined.

Lemma X11_route_forwards_body_to_post_and_put_witness :
  ∃ sent : Request,
    (run_async (Proxy.POST Scenario.env (Resolved Cases.delete_with_body))
       Scenario.upstream).2 = [sent]
    ∧ req_method sent = "DELETE"
    ∧ req_body sent = None.
Proof.
  destruct (X11_route_forwards_body_to_post_and_put Scenario.env
              Cases.delete_with_body "DELETE" "/todos/7" Scenario.upstream)
    as (sent & Htrace & Hmethod & _ & Hnone & _).
  - reflexivity.
  - unfold Proxy.ALLOWED_METHODS. rewrite !elem_of_cons.
    right. right. right. left. reflexivity.
  - reflexivity.
  - reflexivity.
  - exists sent. split; [exact Htrace|]. split; [exact Hmethod|].
    apply Hnone. right. reflexivity.
Defined.

Lemma X12_query_one_live_request_witness :
  let h := AutoQuery.run [AutoQuery.Render "/todos/8"]
             (AutoQuery.useAutoQuery "/todos/7") in
  AutoQuery.tasks h !! 0 = Some AwaitFetch
  ∧ AutoQuery.tasks h !! 1 = Some AwaitFetch
  ∧ AutoQuery.cleanup h = Some 1.
Proof.
  intros h. split; [reflexivity|]. split; [reflexivity|].
  apply (X12_query_one_live_request "/todos/7"
           [AutoQuery.Render "/todos/8"] 1 1).
  - eexists. reflexivity.
  - vm_compute. discriminate.
  - eexists. reflexivity.
  - vm_compute. discriminate.
Defined.

Lemma X13_query_unmount_cancels_witness :
  let h := AutoQuery.useAutoQuery "/todos" in
  let h' := AutoQuery.step AutoQuery.Unmount h in
  let late := [AutoQuery.FetchSettled 0 (Scenario.respond 200 Scenario.todo);
               AutoQuery.BodyRead 0] in
  AutoQuery.mounted h = true
  ∧ AutoQuery.updates (AutoQuery.run late h') = AutoQuery.updates h'
  ∧ AutoQuery.state (AutoQuery.run late h') = AutoQuery.state h'.
Proof.
  intros h h' late. split; [reflexivity|].
  apply (X13_query_unmount_cancels "/todos" [] late).
  reflexivity.
Defined.

Lemma X14_query_failure_sets_error_witness :
  let h := AutoQuery.useAutoQuery "/todos" in
  let ev := AutoQuery.FetchSettled 0 (Rejected Scenario.network_error) in
  query_thrown ev h = Some Scenario.network_error
  ∧ AutoQuery.state (AutoQuery.step ev h)
    = {| AutoQuery.data := None;
         AutoQuery.error := Some "Request failed";
         AutoQuery.loading := false |}.
Proof.
  intros h ev. split; [reflexivity|].
  apply (X14_query_failure_sets_error h ev Scenario.network_error).
  - reflexivity.
  - reflexivity.
  - reflexivity.
Defined.

Lemma X15_query_abort_is_silent_witness :
  let h := AutoQuery.step (AutoQuery.Render "/todos/8")
             (AutoQuery.useAutoQuery "/todos/7") in
  let ev := AutoQuery.FetchSettled 0 (Scenario.respond 200 Scenario.todo) in
  query_thrown ev h = Some AbortError
  ∧ AutoQuery.state (AutoQuery.step ev h) = AutoQuery.state h
  ∧ AutoQuery.updates (AutoQuery.step ev h) = AutoQuery.updates h.
Proof.
  intros h ev. split; [reflexivity|].
  apply (X15_query_abort_is_silent h ev AbortError).
  - reflexivity.
  - reflexivity.
Defined.

Lemma X19_mutation_ignores_status_witness :
  let answer := Scenario.respond 500 Scenario.proxy_failure in
  let h' := AutoMutation.run "/todos" AutoMutation.POST
              (completes 0 answer) Cases.one_call in
  AutoMutation.state h'
  = {| AutoMutation.data := Some Scenario.proxy_failure;
       AutoMutation.error := None;
       AutoMutation.loading := false |}
  ∧ AutoMutation.promises h' !! 0 = Some (Resolved Scenario.proxy_failure).
Proof.
  intros answer h'.
  apply (X19_mutation_ignores_status "/todos" AutoMutation.POST
           Cases.one_call 0
           {| res_status := 500;
              res_body := ReadText (Reference.write Scenario.proxy_failure) |}
           (Reference.write Scenario.proxy_failure) Scenario.proxy_failure).
  - reflexivity.
  - reflexivity.
  - vm_compute. discriminate.
  - reflexivity.
  - vm_compute. reflexivity.
Defined.

Lemma X20_mutation_failure_rejects_with_cause_witness :
  let ev := AutoMutation.FetchSettled 0 (Rejected Scenario.network_error) in
  let h' := AutoMutation.step "/todos" AutoMutation.POST ev Cases.one_call in
  mutation_thrown ev Cases.one_call = Some (0, Scenario.network_error)
  ∧ AutoMutation.promises h' !! 0 = Some (Rejected Scenario.network_error)
  ∧ AutoMutation.state h' = mutation_failed.
Proof.
  intros ev h'. split; [reflexivity|].
  destruct (X20_mutation_failure_rejects_with_cause "/todos" AutoMutation.POST
              Cases.one_call ev 0 Scenario.network_error)
    as (Hpromise & _ & Hstate).
  - reflexivity.
  - reflexivity.
  - split; [exact Hpromise|]. apply Hstate. reflexivity.
Defined.

Lemma X22_mutation_call_in_flight_or_settled_witness :
  let evs := ([AutoMutation.Mutate Scenario.todo]
              ++ completes 0 (Scenario.respond 200 Scenario.todo)
              ++ [AutoMutation.Mutate Scenario.other_todo])%list in
  let h := AutoMutation.run "/todos" AutoMutation.POST evs
             AutoMutation.useAutoMutation in
  AutoMutation.fresh h = 2
  ∧ ((is_Some (AutoMutation.tasks h !! 1)
      ∧ AutoMutation.promises h !! 1 = None)
     ∨ (AutoMutation.tasks h !! 1 = None
        ∧ is_Some (AutoMutation.promises h !! 1))).
Proof.
  intros evs h. split; [reflexivity|].
  apply (X22_mutation_call_in_flight_or_settled "/todos" AutoMutation.POST
           evs 1).
  vm_compute. lia.
Defined.

Lemma X23_query_request_at_the_route_witness :
  carried (query_message "todos")
  ∧ run_async
      (Proxy.POST Scenario.env (read_json (AutoQuery.proxy_request "todos")))
      Scenario.upstream
    = (Resolved (Proxy.NextResponse_json
                   (VObject [("error", VString "Invalid path")]) 400), []).
Proof.
  assert (carried (query_message "todos")) as Hcarried.
  { exists (Reference.write (query_message "todos")), (query_message "todos").
    split; [reflexivity|]. split; [vm_compute; reflexivity|].
    intros k. reflexivity. }
  split; [exact Hcarried|].
  apply (X23_query_request_at_the_route Scenario.env "todos" Scenario.upstream
           Hcarried).
Defined.

Lemma X24_mutation_request_at_the_route_witness :
  let message :=
    mutation_message "/todos/7" AutoMutation.DELETE Scenario.todo in
  let request :=
    AutoMutation.proxy_request "/todos/7" AutoMutation.DELETE Scenario.todo in
  carried message
  ∧ ∃ sent : Request,
      (run_async (Proxy.POST Scenario.env (read_json request))
         Scenario.upstream).2 = [sent]
      ∧ req_method sent = "DELETE"
      ∧ req_body sent = None.
Proof.
  intros message request.
  assert (carried message) as Hcarried.
  { exists (Reference.write message), message.
    split; [reflexivity|]. split; [vm_compute; reflexivity|].
    intros k. reflexivity. }
  split; [exact Hcarried|].
  destruct (X24_mutation_request_at_the_route Scenario.env "/todos/7"
              AutoMutation.DELETE Scenario.todo Scenario.upstream Hcarried)
    as (sent & Htrace & _ & Hmethod & Hbody).
  - reflexivity.
  - exists sent. split; [exact Htrace|]. split; [exact Hmethod|exact Hbody].
Defined.
